(** * Conway's Game of Life (FunPy, gameoflife.py): a shallow embedding

    A numpy 2-dimensional array is modelled as its list of rows; a cell value
    is an integer ([Z]).  Python exceptions are the constructors of [exn],
    and the generator returned by [create_game] is an explicit state that
    [send] advances, the way [game.send(None)] resumes it. *)

From Stdlib Require Import String List ZArith Lia Bool Arith.
Import ListNotations.
Open Scope string_scope.
Open Scope Z_scope.

(** ** Data model *)

Abbreviation row := (list Z) (only parsing).
Abbreviation grid := (list (list Z)) (only parsing).

(** [grid[i, j]] (0 where the index is out of range: never read by the code). *)
Definition cell_at (g : grid) (i j : nat) : Z := nth j (nth i g []) 0.

(** [grid.shape]: rows and the length of the first row. *)
Definition shape0 (g : grid) : nat := length g.
Definition shape1 (g : grid) : nat := length (hd [] g).

(** A well-formed numpy array of shape (h, w). *)
Definition rect (h w : nat) (g : grid) : Prop :=
  length g = h /\ Forall (fun r => length r = w) g.

(** Python exceptions raised on the paths of the module. *)
Inductive exn :=
| ValueError (msg : string)
| IndexError.

Inductive result (A : Type) :=
| Ok (a : A)
| Err (e : exn).
Arguments Ok {A} a.
Arguments Err {A} e.

(** ** update_cell (lines 11-36) *)

Definition update_cell (cell num_neighbors : Z) : Z :=
  if num_neighbors =? 3 then 1
  else if (num_neighbors =? 2) && (cell =? 1) then 1
  else 0.

(** Storing a value into an array of [dtype=np.bool_] ([new_grid[i, j] = ...]). *)
Definition to_bool_cell (x : Z) : Z := if x =? 0 then 0 else 1.

(** ** update_grid (lines 39-81) *)

(** [np.column_stack((grid[:, -1], grid, grid[:, 0]))] on one row. *)
Definition wrap_row (r : row) : row := last r 0 :: r ++ [hd 0 r].

(** Periodic expansion (lines 61-64); indexing [grid[:, -1]] or [grid[-1]]
    raises [IndexError] when a dimension is 0. *)
Definition pad_periodic (g : grid) : option grid :=
  match g with
  | [] => None
  | [] :: _ => None
  | _ =>
      let g1 := map wrap_row g in
      Some (last g1 [] :: g1 ++ [hd [] g1])
  end.

(** Absolute expansion (lines 67-69): [np.zeros((h + 2, w + 2))] with the
    grid written into [temp_grid[1:-1, 1:-1]]. *)
Definition pad_absolute (h w : nat) (g : grid) : grid :=
  repeat 0 (w + 2) :: map (fun r => 0 :: r ++ [0]) g ++ [repeat 0 (w + 2)].

(** [grid[i:i + 3, j:j + 3]] *)
Definition sub_grid (g : grid) (i j : nat) : grid :=
  map (fun r => firstn 3 (skipn j r)) (firstn 3 (skipn i g)).

(** [np.sum] of a 2-dimensional array. *)
Definition sum_row (r : row) : Z := fold_right Z.add 0 r.
Definition np_sum (g : grid) : Z := fold_right Z.add 0 (map sum_row g).

(** Body of the double loop (lines 75-80) at position [(i, j)]. *)
Definition new_cell (padded : grid) (i j : nat) : Z :=
  let sub := sub_grid padded i j in
  let cell := cell_at sub 1 1 in
  let num_neighbors := np_sum sub - cell in
  to_bool_cell (update_cell cell num_neighbors).

(** The expanded grid (lines 58-69). *)
Definition expand_grid (g : grid) (periodic_boundary : bool) : option grid :=
  if periodic_boundary then pad_periodic g
  else Some (pad_absolute (shape0 g) (shape1 g) g).

Definition update_grid (g : grid) (periodic_boundary : bool) : option grid :=
  let h := shape0 g in
  let w := shape1 g in
  match expand_grid g periodic_boundary with
  | None => None
  | Some pg =>
      Some (map (fun i => map (fun j => new_cell pg i j) (seq 0 w)) (seq 0 h))
  end.

(** ** create_game (lines 84-106) *)

(** [np.array_equal(grid, grid.astype(bool))] *)
Definition astype_bool (x : Z) : Z := if x =? 0 then 0 else 1.
Definition is_binary (g : grid) : bool :=
  forallb (forallb (fun x => x =? astype_bool x)) g.

(** The generator: not started yet, or suspended at its [yield grid]. *)
Inductive game :=
| Game_Start (g : grid) (periodic_boundary : bool)
| Game_Suspended (g : grid) (periodic_boundary : bool).

(** Calling a generator function runs none of its body. *)
Definition create_game (g : grid) (periodic_boundary : bool) : game :=
  Game_Start g periodic_boundary.

(** [game.send(None)]: run the body up to the next [yield]. *)
Definition send (st : game) : result (grid * game) :=
  match st with
  | Game_Start g p =>
      if negb (is_binary g)
      then Err (ValueError "Grid contains non-binary values.")
      else Ok (g, Game_Suspended g p)
  | Game_Suspended g p =>
      match update_grid g p with
      | None => Err IndexError
      | Some g' => Ok (g', Game_Suspended g' p)
      end
  end.

(** [for i in range(n): results[i] = game.send(None)] *)
Fixpoint pull (n : nat) (st : game) : result (list grid) :=
  match n with
  | O => Ok []
  | S n' =>
      match send st with
      | Err e => Err e
      | Ok (x, st') =>
          match pull n' st' with
          | Err e => Err e
          | Ok xs => Ok (x :: xs)
          end
      end
  end.

(** ** run_game (lines 109-139) *)

Definition run_game (g : grid) (num_generations : Z) (periodic_boundary : bool)
  : result (list grid) :=
  let game := create_game g periodic_boundary in
  if num_generations <? 0
  then Err (ValueError "negative dimensions are not allowed")
  else pull (Z.to_nat num_generations) game.

(** Sum of the 3x3 window of [padded] whose top-left corner is [(i, j)]. *)
Definition window_sum (padded : grid) (i j : nat) : Z :=
  let c (a b : nat) := cell_at padded (i + a) (j + b) in
  c 0%nat 0%nat + c 0%nat 1%nat + c 0%nat 2%nat +
  c 1%nat 0%nat + c 1%nat 1%nat + c 1%nat 2%nat +
  c 2%nat 0%nat + c 2%nat 1%nat + c 2%nat 2%nat.

(** ** Neighbourhoods on the logical grid (used to state the boundary policies) *)

(** Sum of the eight neighbours of [(x, y)] under the lookup [f]. *)
Definition neighbors_sum (f : Z -> Z -> Z) (x y : Z) : Z :=
  f (x - 1) (y - 1) + f (x - 1) y + f (x - 1) (y + 1) +
  f x (y - 1) + f x (y + 1) +
  f (x + 1) (y - 1) + f (x + 1) y + f (x + 1) (y + 1).

(** Lookup that resolves every position off an [h] x [w] grid as dead. *)
Definition dead_outside (g : grid) (h w : nat) (x y : Z) : Z :=
  if (0 <=? x) && (x <? Z.of_nat h) && (0 <=? y) && (y <? Z.of_nat w)
  then cell_at g (Z.to_nat x) (Z.to_nat y) else 0.

(** Toroidal lookup on an [h] x [w] grid. *)
Definition torus (g : grid) (h w : nat) (x y : Z) : Z :=
  cell_at g (Z.to_nat (x mod Z.of_nat h)) (Z.to_nat (y mod Z.of_nat w)).

(** Every cell value is 0 or 1. *)
Definition binary_grid (g : grid) : Prop :=
  forall r x, In r g -> In x r -> x = 0 \/ x = 1.

(** Row (or column) indicator of the 2x2 block starting at [r]. *)
Definition block_ind (r i : nat) : Z :=
  if (r <=? i)%nat && (i <=? r + 1)%nat then 1 else 0.

(** ** Test grids of the spec *)

(** An [h] x [w] grid, dead except the 2x2 block with top-left corner [(r, c)]. *)
Definition block_grid (h w r c : nat) : grid :=
  map (fun i => map (fun j =>
         if (r <=? i)%nat && (i <=? r + 1)%nat && (c <=? j)%nat && (j <=? c + 1)%nat
         then 1 else 0) (seq 0 w)) (seq 0 h).

(** An [h] x [w] grid, dead except the cells [(0, 0)] and [(h-1, w-1)]. *)
Definition corners_grid (h w : nat) : grid :=
  map (fun i => map (fun j =>
         if ((i =? 0)%nat && (j =? 0)%nat) || ((i =? h - 1)%nat && (j =? w - 1)%nat)
         then 1 else 0) (seq 0 w)) (seq 0 h).

(** [np.zeros((h, w))] *)
Definition zeros (h w : nat) : grid := repeat (repeat 0 w) h.

(** The [w] x [h] transpose of an [h] x [w] grid. *)
Definition transpose (h w : nat) (g : grid) : grid :=
  map (fun i => map (fun j => cell_at g j i) (seq 0 h)) (seq 0 w).

(** Horizontal blinker: row [r], columns [c - 1] to [c + 1]. *)
Definition hblinker (h w r c : nat) : grid :=
  map (fun i => map (fun j =>
         if (i =? r)%nat && (c <=? j + 1)%nat && (j <=? c + 1)%nat then 1 else 0)
       (seq 0 w)) (seq 0 h).

(** Vertical blinker: column [c], rows [r - 1] to [r + 1]. *)
Definition vblinker (h w r c : nat) : grid :=
  map (fun i => map (fun j =>
         if (r <=? i + 1)%nat && (i <=? r + 1)%nat && (j =? c)%nat then 1 else 0)
       (seq 0 w)) (seq 0 h).

(** Indicators of one index [r] and of [r - 1 .. r + 1], and the number of
    indices of [k - 1 .. k + 1] that fall in [r - 1 .. r + 1]. *)
Definition ind1 (r k : nat) : Z := if (k =? r)%nat then 1 else 0.
Definition ind3 (r k : nat) : Z := if (r <=? k + 1)%nat && (k <=? r + 1)%nat then 1 else 0.
Definition tri (r k : nat) : Z :=
  if (k =? r)%nat then 3
  else if (k + 1 =? r)%nat || (k =? r + 1)%nat then 2
  else if (k + 2 =? r)%nat || (k =? r + 2)%nat then 1
  else 0.

(** [np.roll(grid, (a, b), axis=(0, 1))]: the grid translated by [a] rows and
    [b] columns, wrapping around. *)
Definition roll (h w : nat) (a b : Z) (g : grid) : grid :=
  map (fun i => map (fun j => torus g h w (Z.of_nat i - a) (Z.of_nat j - b)) (seq 0 w))
      (seq 0 h).

Example ex_blinker :
  let b := [[0;0;0;0;0];[0;0;0;0;0];[0;1;1;1;0];[0;0;0;0;0];[0;0;0;0;0]] in
  update_grid b false = Some [[0;0;0;0;0];[0;0;1;0;0];[0;0;1;0;0];[0;0;1;0;0];[0;0;0;0;0]].
Proof. reflexivity. Qed.

Example ex_corners_2_4 :
  update_grid (corners_grid 2 4) true <> update_grid (corners_grid 2 4) false.
Proof. vm_compute. congruence. Qed.

Example ex_corners_5_5 :
  update_grid (corners_grid 5 5) true = update_grid (corners_grid 5 5) false.
Proof. vm_compute. reflexivity. Qed.

Example ex_block :
  update_grid (block_grid 4 4 0 0) true = Some (block_grid 4 4 0 0) /\
  update_grid (block_grid 3 3 1 1) true = Some (block_grid 3 3 1 1).
Proof. split; reflexivity. Qed.

(** ** List and index facts *)

Lemma last_as_nth {A} (l : list A) (d : A) :
  l <> [] -> last l d = nth (length l - 1) l d.
Proof.
  induction l as [|a l IH]; intros H; [congruence|].
  destruct l as [|b l]; [reflexivity|].
  change (last (a :: b :: l) d) with (last (b :: l) d).
  rewrite IH by discriminate. cbn. rewrite Nat.sub_0_r. reflexivity.
Qed.

Lemma firstn3_skipn {A} (l : list A) (d : A) (i : nat) :
  (i + 3 <= length l)%nat ->
  firstn 3 (skipn i l) = [nth i l d; nth (i + 1) l d; nth (i + 2) l d].
Proof.
  rewrite Nat.add_1_r. replace (i + 2)%nat with (S (S i)) by lia.
  revert l; induction i as [|i IH]; intros l Hl.
  - destruct l as [|a [|b [|c l]]]; cbn in *; try lia; reflexivity.
  - destruct l as [|a l]; cbn in *; [lia|]. apply IH. lia.
Qed.

Lemma rect_nth_length h w g i :
  rect h w g -> (i < h)%nat -> length (nth i g []) = w.
Proof.
  intros [Hl Hf] Hi. rewrite Forall_nth in Hf. apply Hf. lia.
Qed.

(** The periodic index shift [(x - 1) mod n] on the padded range. *)
Lemma wrap_index (n x : nat) :
  (0 < n)%nat -> (x < n + 2)%nat ->
  ((x + n - 1) mod n =
   if (x =? 0)%nat then n - 1 else if (x =? n + 1)%nat then 0 else x - 1)%nat.
Proof.
  intros Hn Hx.
  destruct (Nat.eqb_spec x 0) as [->|H0].
  - apply Nat.mod_small. lia.
  - destruct (Nat.eqb_spec x (n + 1)) as [->|H1].
    + replace (n + 1 + n - 1)%nat with (0 + 2 * n)%nat by lia.
      rewrite Nat.Div0.mod_add, Nat.Div0.mod_0_l. reflexivity.
    + replace (x + n - 1)%nat with ((x - 1) + 1 * n)%nat by lia.
      rewrite Nat.Div0.mod_add. apply Nat.mod_small. lia.
Qed.

(** ** The padded grids *)

Lemma rect_pad_absolute h w g :
  rect h w g -> rect (h + 2) (w + 2) (pad_absolute h w g).
Proof.
  intros [Hl Hf]. split.
  - unfold pad_absolute. cbn [length]. rewrite length_app, length_map. cbn. lia.
  - unfold pad_absolute. constructor; [apply repeat_length|].
    apply Forall_app; split; [|constructor; [apply repeat_length|constructor]].
    apply Forall_map. eapply Forall_impl; [|exact Hf].
    intros r Hr. cbn in *. rewrite length_app. cbn. lia.
Qed.

Lemma cell_pad_absolute h w g x y :
  rect h w g -> (x < h + 2)%nat -> (y < w + 2)%nat ->
  cell_at (pad_absolute h w g) x y =
  if (x =? 0)%nat || (x =? h + 1)%nat || (y =? 0)%nat || (y =? w + 1)%nat
  then 0 else cell_at g (x - 1) (y - 1).
Proof.
  intros Hg Hx Hy. pose proof Hg as [Hl Hf]. unfold cell_at, pad_absolute.
  destruct x as [|x].
  - cbn [Nat.eqb orb]. apply nth_repeat.
  - cbn [nth]. destruct (Nat.eq_dec x h) as [->|Hxh].
    + rewrite app_nth2 by (rewrite length_map; lia).
      rewrite length_map, Hl, Nat.sub_diag. cbn [nth].
      replace (S h =? h + 1)%nat with true by (symmetry; apply Nat.eqb_eq; lia).
      rewrite orb_true_r. cbn [orb]. apply nth_repeat.
    + rewrite app_nth1 by (rewrite length_map; lia).
      rewrite (nth_indep _ _ (0 :: [] ++ [0])) by (rewrite length_map; lia).
      rewrite (map_nth (fun r => 0 :: r ++ [0])).
      assert (Hr : length (nth x g []) = w) by (apply (rect_nth_length h); auto; lia).
      replace ((S x =? 0)%nat || (S x =? h + 1)%nat) with false
        by (symmetry; apply orb_false_iff; split; apply Nat.eqb_neq; lia).
      replace (S x - 1)%nat with x by lia.
      destruct y as [|y]; [reflexivity|]. cbn [nth orb].
      destruct (Nat.eq_dec y w) as [->|Hyw].
      * rewrite app_nth2 by lia. rewrite Hr, Nat.sub_diag.
        replace (S w =? w + 1)%nat with true by (symmetry; apply Nat.eqb_eq; lia).
        rewrite orb_true_r. reflexivity.
      * rewrite app_nth1 by lia.
        replace (S y =? w + 1)%nat with false by (symmetry; apply Nat.eqb_neq; lia).
        replace (S y - 1)%nat with y by lia. reflexivity.
Qed.

Lemma nth_map_lt {A B} (f : A -> B) (l : list A) (d : A) (d' : B) n :
  (n < length l)%nat -> nth n (map f l) d' = f (nth n l d).
Proof.
  intros Hn. rewrite (nth_indep _ _ (f d)) by (rewrite length_map; lia).
  apply map_nth.
Qed.

Lemma pad_periodic_eq h w g :
  rect h w g -> (0 < h)%nat -> (0 < w)%nat ->
  pad_periodic g =
  Some (last (map wrap_row g) [] :: map wrap_row g ++ [hd [] (map wrap_row g)]).
Proof.
  intros [Hl Hf] Hh Hw.
  destruct g as [|r0 g']; [cbn in Hl; lia|].
  inversion Hf as [|? ? Hr0 _]; subst.
  destruct r0 as [|a r0']; [cbn in Hw; lia|]. reflexivity.
Qed.

Lemma wrap_row_nth (w : nat) (r : row) (y : nat) :
  length r = w -> (0 < w)%nat -> (y < w + 2)%nat ->
  nth y (wrap_row r) 0 = nth ((y + w - 1) mod w) r 0.
Proof.
  intros Hr Hw Hy. rewrite wrap_index by lia. unfold wrap_row.
  destruct (Nat.eqb_spec y 0) as [->|H0].
  - cbn [nth]. rewrite last_as_nth by (intros ->; cbn in Hr; lia).
    rewrite Hr. reflexivity.
  - destruct y as [|y]; [lia|]. cbn [nth].
    destruct (Nat.eqb_spec (S y) (w + 1)) as [Hyw|Hyw].
    + rewrite app_nth2 by lia. replace (y - length r)%nat with 0%nat by lia.
      destruct r; cbn in *; [lia|reflexivity].
    + rewrite app_nth1 by lia. f_equal. lia.
Qed.

Lemma rect_pad_periodic h w g :
  rect h w g -> (0 < h)%nat -> (0 < w)%nat ->
  exists pg, pad_periodic g = Some pg /\ rect (h + 2) (w + 2) pg.
Proof.
  intros Hg Hh Hw. rewrite (pad_periodic_eq h w g Hg Hh Hw).
  eexists; split; [reflexivity|]. destruct Hg as [Hl Hf].
  assert (Hm : Forall (fun r => length r = (w + 2)%nat) (map wrap_row g)).
  { apply Forall_map. eapply Forall_impl; [|exact Hf].
    intros r Hr. unfold wrap_row. cbn in *. rewrite length_app. cbn. lia. }
  split.
  - cbn [length]. rewrite length_app, length_map. cbn. lia.
  - rewrite Forall_nth in Hm. constructor.
    + rewrite last_as_nth by (destruct g; cbn in *; [lia|discriminate]).
      apply Hm. rewrite length_map. lia.
    + apply Forall_app. split; [rewrite Forall_nth; exact Hm|].
      constructor; [|constructor].
      destruct g as [|r g']; cbn in Hl; [lia|]. apply (Hm 0%nat []). cbn. lia.
Qed.

Lemma cell_pad_periodic h w g pg x y :
  rect h w g -> (0 < h)%nat -> (0 < w)%nat -> pad_periodic g = Some pg ->
  (x < h + 2)%nat -> (y < w + 2)%nat ->
  cell_at pg x y = cell_at g ((x + h - 1) mod h) ((y + w - 1) mod w).
Proof.
  intros Hg Hh Hw Hpg Hx Hy.
  rewrite (pad_periodic_eq h w g Hg Hh Hw) in Hpg. injection Hpg as <-.
  assert (Hrow : nth x (last (map wrap_row g) [] :: map wrap_row g ++ [hd [] (map wrap_row g)]) []
                 = wrap_row (nth ((x + h - 1) mod h) g [])).
  { pose proof Hg as [Hl Hf]. rewrite wrap_index by lia.
    destruct (Nat.eqb_spec x 0) as [->|H0].
    - cbn [nth]. rewrite last_as_nth by (destruct g; cbn in *; [lia|discriminate]).
      rewrite length_map, Hl. apply nth_map_lt. lia.
    - destruct x as [|x]; [lia|]. cbn [nth].
      destruct (Nat.eqb_spec (S x) (h + 1)) as [Hxh|Hxh].
      + rewrite app_nth2 by (rewrite length_map; lia).
        rewrite length_map. replace (x - length g)%nat with 0%nat by lia.
        destruct g; cbn in *; [lia|reflexivity].
      + rewrite app_nth1 by (rewrite length_map; lia).
        replace (S x - 1)%nat with x by lia. apply nth_map_lt. lia. }
  unfold cell_at. rewrite Hrow. apply wrap_row_nth; [|lia|lia].
  apply (rect_nth_length h); [exact Hg|]. apply Nat.mod_upper_bound. lia.
Qed.

(** ** The update loop *)

Lemma sub_grid_explicit H W pg i j :
  rect H W pg -> (i + 3 <= H)%nat -> (j + 3 <= W)%nat ->
  sub_grid pg i j =
  [[cell_at pg i j; cell_at pg i (j + 1); cell_at pg i (j + 2)];
   [cell_at pg (i + 1) j; cell_at pg (i + 1) (j + 1); cell_at pg (i + 1) (j + 2)];
   [cell_at pg (i + 2) j; cell_at pg (i + 2) (j + 1); cell_at pg (i + 2) (j + 2)]].
Proof.
  intros Hpg Hi Hj. pose proof Hpg as [Hl _]. unfold sub_grid, cell_at.
  rewrite (firstn3_skipn _ []) by lia. cbn [map].
  rewrite !(firstn3_skipn _ 0)
    by (rewrite (rect_nth_length H W pg); [lia|exact Hpg|lia]).
  reflexivity.
Qed.

Lemma new_cell_eq H W pg i j :
  rect H W pg -> (i + 3 <= H)%nat -> (j + 3 <= W)%nat ->
  new_cell pg i j =
  to_bool_cell (update_cell (cell_at pg (i + 1) (j + 1))
                            (window_sum pg i j - cell_at pg (i + 1) (j + 1))).
Proof.
  intros Hpg Hi Hj. unfold new_cell. rewrite (sub_grid_explicit H W) by assumption.
  unfold window_sum, np_sum, sum_row. cbn [cell_at nth map fold_right].
  rewrite !Nat.add_0_r. do 3 f_equal. ring.
Qed.

Lemma shape_rect h w g :
  rect h w g -> shape0 g = h /\ ((0 < h)%nat -> shape1 g = w).
Proof.
  intros [Hl Hf]. split; [exact Hl|]. intros Hh.
  destruct g as [|r g']; cbn in *; [lia|]. inversion Hf; assumption.
Qed.

Lemma rect_tabulate h w (f : nat -> nat -> Z) :
  rect h w (map (fun i => map (fun j => f i j) (seq 0 w)) (seq 0 h)).
Proof.
  split; [rewrite length_map; apply length_seq|].
  apply Forall_map, Forall_forall. intros i _. rewrite length_map. apply length_seq.
Qed.

Lemma cell_tabulate h w (f : nat -> nat -> Z) i j :
  (i < h)%nat -> (j < w)%nat ->
  cell_at (map (fun i => map (fun j => f i j) (seq 0 w)) (seq 0 h)) i j = f i j.
Proof.
  intros Hi Hj. unfold cell_at.
  rewrite (nth_map_lt _ _ 0%nat) by (rewrite length_seq; lia).
  rewrite (nth_map_lt _ _ 0%nat) by (rewrite length_seq; lia).
  rewrite !seq_nth by lia. reflexivity.
Qed.

(** The expanded grid exists on every admissible input and is one cell
    larger on every side. *)
Lemma expand_grid_rect h w g p :
  rect h w g -> (0 < h)%nat -> (p = false \/ (0 < w)%nat) ->
  exists pg, expand_grid g p = Some pg /\ rect (h + 2) (w + 2) pg.
Proof.
  intros Hg Hh Hp. unfold expand_grid. destruct p.
  - destruct Hp as [Hp|Hw]; [discriminate|]. apply rect_pad_periodic; assumption.
  - eexists; split; [reflexivity|].
    destruct (shape_rect h w g Hg) as [-> ->]; [|lia].
    apply rect_pad_absolute; assumption.
Qed.

(** Entry [(i, j)] of the next grid is computed from the window around
    [(i + 1, j + 1)] of the expanded grid. *)
Lemma update_grid_cells h w g p :
  rect h w g -> (0 < h)%nat -> (p = false \/ (0 < w)%nat) ->
  exists pg g', expand_grid g p = Some pg /\ rect (h + 2) (w + 2) pg /\
    update_grid g p = Some g' /\ rect h w g' /\
    forall i j, (i < h)%nat -> (j < w)%nat ->
      cell_at g' i j =
      to_bool_cell (update_cell (cell_at pg (i + 1) (j + 1))
                                (window_sum pg i j - cell_at pg (i + 1) (j + 1))).
Proof.
  intros Hg Hh Hp. destruct (expand_grid_rect h w g p Hg Hh Hp) as [pg [Hpg Hr]].
  exists pg. unfold update_grid. rewrite Hpg.
  destruct (shape_rect h w g Hg) as [Hs0 Hs1]. rewrite Hs0, Hs1 by lia.
  eexists; split; [reflexivity|]; split; [exact Hr|]; split; [reflexivity|].
  split; [apply rect_tabulate|]. intros i j Hi Hj.
  rewrite cell_tabulate by assumption. apply (new_cell_eq (h + 2) (w + 2)); auto; lia.
Qed.

Lemma rect_ext h w a b :
  rect h w a -> rect h w b ->
  (forall i j, (i < h)%nat -> (j < w)%nat -> cell_at a i j = cell_at b i j) ->
  a = b.
Proof.
  intros Ha Hb Hc. pose proof Ha as [Hla _]. pose proof Hb as [Hlb _].
  apply (nth_ext _ _ [] []); [congruence|]. intros i Hi.
  apply (nth_ext _ _ 0 0).
  - rewrite (rect_nth_length h w a), (rect_nth_length h w b); auto; lia.
  - intros j Hj. rewrite (rect_nth_length h w a) in Hj by (auto; lia).
    apply Hc; lia.
Qed.

Lemma update_cell_binary c n : update_cell c n = 0 \/ update_cell c n = 1.
Proof. unfold update_cell. destruct (n =? 3); [|destruct (_ && _)]; auto. Qed.

Lemma to_bool_cell_binary x : to_bool_cell x = 0 \/ to_bool_cell x = 1.
Proof. unfold to_bool_cell. destruct (x =? 0); auto. Qed.

Lemma to_bool_cell_id x : x = 0 \/ x = 1 -> to_bool_cell x = x.
Proof. intros [-> | ->]; reflexivity. Qed.

(** Every grid returned by [update_grid] has [np.bool_] entries. *)
Lemma update_grid_binary g p g' :
  update_grid g p = Some g' -> is_binary g' = true.
Proof.
  unfold update_grid. destruct (expand_grid g p) as [pg|]; [|discriminate].
  intros [= <-]. unfold is_binary. apply forallb_forall. intros r Hr.
  apply in_map_iff in Hr as [i [<- _]]. apply forallb_forall. intros x Hx.
  apply in_map_iff in Hx as [j [<- _]]. unfold new_cell.
  destruct (to_bool_cell_binary (update_cell (cell_at (sub_grid pg i j) 1 1)
             (np_sum (sub_grid pg i j) - cell_at (sub_grid pg i j) 1 1))) as [-> | ->];
    reflexivity.
Qed.

(** [pull] from a suspended generator over a grid of fixed shape: it never
    fails, and each element is the update of the one before. *)
Lemma pull_suspended h w p :
  (0 < h)%nat -> (p = false \/ (0 < w)%nat) ->
  forall n g, rect h w g ->
  exists gs, pull n (Game_Suspended g p) = Ok gs /\ length gs = n /\
    forall i, (i + 1 < length (g :: gs))%nat ->
      update_grid (nth i (g :: gs) []) p = Some (nth (i + 1) (g :: gs) []).
Proof.
  intros Hh Hp n. induction n as [|n IH]; intros g Hg.
  - exists []. split; [reflexivity|]. split; [reflexivity|]. cbn. intros; lia.
  - destruct (update_grid_cells h w g p Hg Hh Hp) as [pg [g' [_ [_ [Hu [Hg' _]]]]]].
    destruct (IH g' Hg') as [gs [Hpull [Hlen Hchain]]].
    exists (g' :: gs). cbn [pull send]. rewrite Hu, Hpull.
    split; [reflexivity|]. split; [cbn; lia|].
    intros [|i] Hi; [exact Hu|]. apply Hchain. cbn in *. lia.
Qed.

(** ** Padded lookups as lookups on the logical grid *)

Lemma window_as_neighbors H W pg (F : Z -> Z -> Z) i j :
  (forall x y, (x < H + 2)%nat -> (y < W + 2)%nat ->
     cell_at pg x y = F (Z.of_nat x - 1) (Z.of_nat y - 1)) ->
  (i < H)%nat -> (j < W)%nat ->
  cell_at pg (i + 1) (j + 1) = F (Z.of_nat i) (Z.of_nat j) /\
  window_sum pg i j - cell_at pg (i + 1) (j + 1) =
  neighbors_sum F (Z.of_nat i) (Z.of_nat j).
Proof.
  intros HF Hi Hj. unfold window_sum, neighbors_sum. rewrite !HF by lia.
  replace (Z.of_nat (i + 0) - 1) with (Z.of_nat i - 1) by lia.
  replace (Z.of_nat (i + 1) - 1) with (Z.of_nat i) by lia.
  replace (Z.of_nat (i + 2) - 1) with (Z.of_nat i + 1) by lia.
  replace (Z.of_nat (j + 0) - 1) with (Z.of_nat j - 1) by lia.
  replace (Z.of_nat (j + 1) - 1) with (Z.of_nat j) by lia.
  replace (Z.of_nat (j + 2) - 1) with (Z.of_nat j + 1) by lia.
  split; [reflexivity|]. ring.
Qed.

Lemma dead_outside_in g h w x y :
  (0 <= x < Z.of_nat h) -> (0 <= y < Z.of_nat w) ->
  dead_outside g h w x y = cell_at g (Z.to_nat x) (Z.to_nat y).
Proof.
  intros Hx Hy. unfold dead_outside.
  destruct (Z.leb_spec 0 x), (Z.ltb_spec x (Z.of_nat h)),
           (Z.leb_spec 0 y), (Z.ltb_spec y (Z.of_nat w)); cbn; lia || reflexivity.
Qed.

Lemma dead_outside_out g h w x y :
  ~ ((0 <= x < Z.of_nat h) /\ (0 <= y < Z.of_nat w)) ->
  dead_outside g h w x y = 0.
Proof.
  intros Hn. unfold dead_outside.
  destruct (Z.leb_spec 0 x), (Z.ltb_spec x (Z.of_nat h)),
           (Z.leb_spec 0 y), (Z.ltb_spec y (Z.of_nat w)); cbn; try reflexivity.
  exfalso. apply Hn. lia.
Qed.

Lemma pad_absolute_dead_outside h w g x y :
  rect h w g -> (x < h + 2)%nat -> (y < w + 2)%nat ->
  cell_at (pad_absolute h w g) x y = dead_outside g h w (Z.of_nat x - 1) (Z.of_nat y - 1).
Proof.
  intros Hg Hx Hy. rewrite cell_pad_absolute by assumption.
  destruct (Nat.eqb_spec x 0), (Nat.eqb_spec x (h + 1)),
           (Nat.eqb_spec y 0), (Nat.eqb_spec y (w + 1)); cbn [orb];
    try (symmetry; apply dead_outside_out; lia).
  rewrite dead_outside_in by lia. f_equal; lia.
Qed.

Lemma periodic_index (n x : nat) :
  (0 < n)%nat -> Z.to_nat ((Z.of_nat x - 1) mod Z.of_nat n) = ((x + n - 1) mod n)%nat.
Proof.
  intros Hn. apply Nat2Z.inj. rewrite Nat2Z.inj_mod.
  rewrite Z2Nat.id by (apply Z.mod_pos_bound; lia).
  replace (Z.of_nat (x + n - 1)) with ((Z.of_nat x - 1) + 1 * Z.of_nat n) by lia.
  rewrite Z_mod_plus_full. reflexivity.
Qed.

Lemma pad_periodic_torus h w g pg x y :
  rect h w g -> (0 < h)%nat -> (0 < w)%nat -> pad_periodic g = Some pg ->
  (x < h + 2)%nat -> (y < w + 2)%nat ->
  cell_at pg x y = torus g h w (Z.of_nat x - 1) (Z.of_nat y - 1).
Proof.
  intros Hg Hh Hw Hpg Hx Hy. rewrite (cell_pad_periodic h w g pg) by assumption.
  unfold torus. rewrite !periodic_index by assumption. reflexivity.
Qed.

(** ** Grids that are a product of a row and a column indicator *)

Section Separable.
Variables (h w : nat) (pg : grid) (R C : nat -> Z).
Hypothesis Hpg : forall x y, (x < h + 2)%nat -> (y < w + 2)%nat ->
  cell_at pg x y = R x * C y.
Hypothesis HR01 : forall x, R x = 0 \/ R x = 1.
Hypothesis HC01 : forall y, C y = 0 \/ C y = 1.
Hypothesis HRsum : forall i, (i < h)%nat -> R i + R (i + 1) + R (i + 2) <= 2.
Hypothesis HCsum : forall j, (j < w)%nat -> C j + C (j + 1) + C (j + 2) <= 2.
Hypothesis HRmid : forall i, (i < h)%nat -> R (i + 1) = 1 -> R i + R (i + 1) + R (i + 2) = 2.
Hypothesis HCmid : forall j, (j < w)%nat -> C (j + 1) = 1 -> C j + C (j + 1) + C (j + 2) = 2.

(** The window sum factors, is at most 4, and is never 3: the next state of
    every cell is its current state. *)
Lemma separable_step i j :
  (i < h)%nat -> (j < w)%nat ->
  to_bool_cell (update_cell (cell_at pg (i + 1) (j + 1))
                            (window_sum pg i j - cell_at pg (i + 1) (j + 1)))
  = R (i + 1) * C (j + 1).
Proof.
  intros Hi Hj.
  assert (Hw : window_sum pg i j = (R i + R (i + 1) + R (i + 2)) * (C j + C (j + 1) + C (j + 2))).
  { unfold window_sum. rewrite !Hpg by lia. rewrite !Nat.add_0_r. ring. }
  rewrite Hw, Hpg by lia.
  pose proof (HRsum i Hi) as Ha. pose proof (HCsum j Hj) as Hb.
  pose proof (HRmid i Hi) as Ha'. pose proof (HCmid j Hj) as Hb'.
  pose proof (HR01 i). pose proof (HR01 (i + 1)). pose proof (HR01 (i + 2)).
  pose proof (HC01 j). pose proof (HC01 (j + 1)). pose proof (HC01 (j + 2)).
  destruct (HR01 (i + 1)) as [Hr|Hr]; destruct (HC01 (j + 1)) as [Hc|Hc].
  - rewrite Hr, Hc. unfold update_cell.
    set (a := R i + 0 + R (i + 2)) in *. set (b := C j + 0 + C (j + 2)) in *.
    assert (a = 0 \/ a = 1 \/ a = 2) as Ha2 by lia.
    assert (b = 0 \/ b = 1 \/ b = 2) as Hb2 by lia.
    destruct Ha2 as [-> | [-> | ->]]; destruct Hb2 as [-> | [-> | ->]]; reflexivity.
  - rewrite Hr, Hc. unfold update_cell.
    set (a := R i + 0 + R (i + 2)) in *. specialize (Hb' Hc).
    rewrite Hc in Hb'. rewrite Hb'.
    assert (a = 0 \/ a = 1 \/ a = 2) as Ha2 by lia.
    destruct Ha2 as [-> | [-> | ->]]; reflexivity.
  - rewrite Hr, Hc. unfold update_cell. specialize (Ha' Hr).
    rewrite Hr in Ha'. rewrite Ha'.
    set (b := C j + 0 + C (j + 2)) in *.
    assert (b = 0 \/ b = 1 \/ b = 2) as Hb2 by lia.
    destruct Hb2 as [-> | [-> | ->]]; reflexivity.
  - rewrite Hr, Hc. specialize (Ha' Hr). specialize (Hb' Hc).
    rewrite Hr in Ha'. rewrite Hc in Hb'. rewrite Ha', Hb'. reflexivity.
Qed.
End Separable.

Lemma block_ind_01 r i : block_ind r i = 0 \/ block_ind r i = 1.
Proof. unfold block_ind. destruct (_ && _); auto. Qed.

Lemma cell_block_grid h w r c i j :
  (i < h)%nat -> (j < w)%nat -> cell_at (block_grid h w r c) i j = block_ind r i * block_ind c j.
Proof.
  intros Hi Hj. unfold block_grid. rewrite (cell_tabulate h w (fun i j =>
    if (r <=? i)%nat && (i <=? r + 1)%nat && (c <=? j)%nat && (j <=? c + 1)%nat
    then 1 else 0)) by assumption.
  unfold block_ind.
  destruct (r <=? i)%nat, (i <=? r + 1)%nat, (c <=? j)%nat, (j <=? c + 1)%nat; reflexivity.
Qed.

Lemma rect_block_grid h w r c : rect h w (block_grid h w r c).
Proof. apply rect_tabulate. Qed.

Ltac split_indices :=
  repeat match goal with
  | |- context [(?a =? ?b)%nat] => destruct (Nat.eqb_spec a b)
  | |- context [(?a <=? ?b)%nat] => destruct (Nat.leb_spec a b)
  end; cbn [andb orb]; lia.

(** Sums of three consecutive row indicators under each padding. *)
Lemma block_ind_periodic_sums n r i :
  (3 <= n)%nat -> (r + 1 < n)%nat -> (i < n)%nat ->
  let R x := block_ind r ((x + n - 1) mod n) in
  R i + R (i + 1)%nat + R (i + 2)%nat <= 2 /\
  (R (i + 1)%nat = 1 -> R i + R (i + 1)%nat + R (i + 2)%nat = 2).
Proof.
  intros Hn Hr Hi R. unfold R, block_ind.
  rewrite !wrap_index by lia. split_indices.
Qed.

Lemma block_ind_absolute_sums n r i :
  (r + 1 < n)%nat -> (i < n)%nat ->
  let R x := if (x =? 0)%nat || (x =? n + 1)%nat then 0 else block_ind r (x - 1) in
  R i + R (i + 1)%nat + R (i + 2)%nat <= 2 /\
  (R (i + 1)%nat = 1 -> R i + R (i + 1)%nat + R (i + 2)%nat = 2).
Proof.
  intros Hr Hi R. unfold R, block_ind. split_indices.
Qed.

(** ** Facts about the generator *)

Lemma is_binary_iff g : is_binary g = true <-> binary_grid g.
Proof.
  unfold is_binary, binary_grid. rewrite forallb_forall. split.
  - intros H r x Hr Hx. specialize (H r Hr). rewrite forallb_forall in H.
    specialize (H x Hx). unfold astype_bool in H.
    destruct (Z.eqb_spec x 0); [auto|]. apply Z.eqb_eq in H. auto.
  - intros H r Hr. apply forallb_forall. intros x Hx.
    destruct (H r x Hr Hx) as [-> | ->]; reflexivity.
Qed.

Lemma not_binary_is_binary g :
  (exists r x, In r g /\ In x r /\ x <> 0 /\ x <> 1) -> is_binary g = false.
Proof.
  intros (r & x & Hr & Hx & H0 & H1).
  destruct (is_binary g) eqn:E; [|reflexivity].
  apply is_binary_iff in E. destruct (E r x Hr Hx); contradiction.
Qed.

(** Once suspended, the generator never raises [ValueError]. *)
Lemma pull_suspended_no_value_error n g p msg :
  pull n (Game_Suspended g p) <> Err (ValueError msg).
Proof.
  revert g. induction n as [|n IH]; intros g; cbn; [discriminate|].
  destruct (update_grid g p) as [g'|]; [|discriminate].
  specialize (IH g'). destruct (pull n (Game_Suspended g' p)); [discriminate|].
  exact IH.
Qed.

Lemma pull_binary n g p gs :
  is_binary g = true -> pull n (Game_Suspended g p) = Ok gs ->
  Forall (fun x => binary_grid x) gs.
Proof.
  revert g gs. induction n as [|n IH]; intros g gs Hb; cbn.
  - intros [= <-]. constructor.
  - destruct (update_grid g p) as [g'|] eqn:Hu; [|discriminate].
    destruct (pull n (Game_Suspended g' p)) as [xs|] eqn:Hp; [|discriminate].
    intros [= <-]. pose proof (update_grid_binary g p g' Hu) as Hb'.
    constructor; [apply is_binary_iff; exact Hb'|]. eapply IH; eauto.
Qed.

Lemma pull_create_binary n g p gs :
  is_binary g = true -> pull n (create_game g p) = Ok gs ->
  Forall (fun x => binary_grid x) gs.
Proof.
  intros Hb. destruct n as [|n]; cbn; [intros [= <-]; constructor|].
  rewrite Hb. cbn. destruct (pull n (Game_Suspended g p)) as [xs|] eqn:Hp; [|discriminate].
  intros [= <-]. constructor; [apply is_binary_iff; exact Hb|].
  eapply pull_binary; eauto.
Qed.

Lemma torus_center h w g i j :
  (i < h)%nat -> (j < w)%nat -> torus g h w (Z.of_nat i) (Z.of_nat j) = cell_at g i j.
Proof.
  intros Hi Hj. unfold torus. rewrite !Z.mod_small by lia. rewrite !Nat2Z.id. reflexivity.
Qed.

Lemma dead_outside_center h w g i j :
  (i < h)%nat -> (j < w)%nat -> dead_outside g h w (Z.of_nat i) (Z.of_nat j) = cell_at g i j.
Proof.
  intros Hi Hj. rewrite dead_outside_in by lia. rewrite !Nat2Z.id. reflexivity.
Qed.

(** * The specification's claims *)

(** ** Seed validation *)

(** C1 (counterexample): constructing a game from a seed containing 2 does not
    fail.  The check runs only at the first pull, so [run_game] with 0
    generations returns an empty result from that seed without any error. *)
Lemma create_game_nonbinary_no_error :
  create_game [[2]] true = Game_Start [[2]] true /\
  run_game [[2]] 0 true = Ok [] /\
  send (create_game [[2]] true) = Err (ValueError "Grid contains non-binary values.").
Proof. repeat split; reflexivity. Qed.

(** C1 (as amended): [create_game] itself never fails.  For a seed with a
    value outside {0,1}, the first pull raises [ValueError] before any
    generation is yielded or computed, so [run_game] with N >= 1 fails.
    For a binary seed the first pull yields the seed, and no later pull ever
    raises [ValueError]. *)
Theorem create_game_validation g p :
  ((exists r x, In r g /\ In x r /\ x <> 0 /\ x <> 1) ->
     send (create_game g p) = Err (ValueError "Grid contains non-binary values.") /\
     forall N, 0 < N -> run_game g N p = Err (ValueError "Grid contains non-binary values.")) /\
  (binary_grid g ->
     send (create_game g p) = Ok (g, Game_Suspended g p) /\
     forall n msg, pull n (create_game g p) <> Err (ValueError msg)).
Proof.
  split.
  - intros Hx. apply not_binary_is_binary in Hx.
    assert (Hs : send (create_game g p) = Err (ValueError "Grid contains non-binary values."))
      by (cbn; rewrite Hx; reflexivity).
    split; [exact Hs|]. intros N HN. unfold run_game.
    destruct (Z.ltb_spec N 0) as [|_]; [lia|].
    destruct (Z.to_nat N) as [|n] eqn:En; [lia|]. cbn [pull]. rewrite Hs. reflexivity.
  - intros Hb. apply is_binary_iff in Hb.
    assert (Hs : send (create_game g p) = Ok (g, Game_Suspended g p))
      by (cbn; rewrite Hb; reflexivity).
    split; [exact Hs|]. intros [|n] msg; cbn [pull]; [discriminate|]. rewrite Hs.
    pose proof (pull_suspended_no_value_error n g p msg) as H.
    destruct (pull n (Game_Suspended g p)); [discriminate|exact H].
Qed.

Lemma create_game_validation_witness :
  send (create_game [[2]] true) = Err (ValueError "Grid contains non-binary values.") /\
  send (create_game [[1; 0]] true) = Ok ([[1; 0]], Game_Suspended [[1; 0]] true).
Proof.
  split.
  - apply (proj1 (create_game_validation [[2]] true)).
    exists [2], 2. cbn. repeat split; auto; discriminate.
  - apply (proj2 (create_game_validation [[1; 0]] true)).
    intros r x Hr Hx. cbn in Hr. destruct Hr as [<-|[]].
    cbn in Hx. destruct Hx as [<-|[<-|[]]]; auto.
Defined.

(** ** The rule evaluator *)

(** C2: for a binary cell and 0 <= n <= 8, [update_cell] returns 1 exactly
    when n = 3, or n = 2 and the cell is alive, and 0 otherwise (B3/S23). *)
Theorem update_cell_B3S23 c n :
  (c = 0 \/ c = 1) -> 0 <= n <= 8 ->
  (update_cell c n = 1 <-> n = 3 \/ (n = 2 /\ c = 1)) /\
  (update_cell c n = 0 <-> ~ (n = 3 \/ (n = 2 /\ c = 1))).
Proof.
  intros Hc Hn. unfold update_cell.
  destruct (Z.eqb_spec n 3); [split; split; auto; intros; try lia; tauto|].
  destruct (Z.eqb_spec n 2), (Z.eqb_spec c 1); cbn; split; split; intros; try lia; tauto.
Qed.

Lemma update_cell_B3S23_witness :
  (update_cell 1 2 = 1 <-> 2 = 3 \/ (2 = 2 /\ 1 = 1)) /\
  (update_cell 1 2 = 0 <-> ~ (2 = 3 \/ (2 = 2 /\ 1 = 1))).
Proof. apply (update_cell_B3S23 1 2); [right; reflexivity | lia]. Defined.

(** ** Boundary policies *)

(** C3 (counterexample): with live cells at (0,0) and (4,4), a 5x5 grid has
    the same next state under both policies (the all-dead grid). *)
Lemma corners_same_next_5x5 :
  update_grid (corners_grid 5 5) true = update_grid (corners_grid 5 5) false /\
  update_grid (corners_grid 5 5) true = Some (repeat (repeat 0 5) 5).
Proof. split; vm_compute; reflexivity. Qed.

(** C3 (as amended): under the Periodic policy, the padded grid's cell (x, y)
    is the grid's cell ((x-1) mod H, (y-1) mod W).  So the padded left column
    is the last column, the padded right column the first, top and bottom
    rows likewise, and corners wrap diagonally.  Every cell's neighbour count
    is taken over toroidal adjacency.  The two-corner seed gives a different
    next state than under Absolute on some grids (2x4) but not on all. *)
Theorem periodic_toroidal :
  (forall h w g, rect h w g -> (0 < h)%nat -> (0 < w)%nat ->
   exists pg g', expand_grid g true = Some pg /\
     (forall x y, (x < h + 2)%nat -> (y < w + 2)%nat ->
        cell_at pg x y = cell_at g ((x + h - 1) mod h) ((y + w - 1) mod w)) /\
     update_grid g true = Some g' /\ rect h w g' /\
     (forall i j, (i < h)%nat -> (j < w)%nat ->
        cell_at g' i j =
        to_bool_cell (update_cell (cell_at g i j)
                                  (neighbors_sum (torus g h w) (Z.of_nat i) (Z.of_nat j))))) /\
  update_grid (corners_grid 2 4) true <> update_grid (corners_grid 2 4) false.
Proof.
  split.
  - intros h w g Hg Hh Hw.
    destruct (update_grid_cells h w g true Hg Hh (or_intror Hw))
      as (pg & g' & Hpg & Hr & Hu & Hg' & Hc).
    exists pg, g'. split; [exact Hpg|]. split.
    { intros x y Hx Hy. apply cell_pad_periodic; auto. }
    split; [exact Hu|]. split; [exact Hg'|].
    intros i j Hi Hj. rewrite Hc by assumption.
    destruct (window_as_neighbors h w pg (torus g h w) i j) as [E1 E2]; auto.
    { intros x y Hx Hy. apply pad_periodic_torus; auto. }
    rewrite E2, E1, torus_center by assumption. reflexivity.
  - vm_compute. congruence.
Qed.

Lemma periodic_toroidal_witness :
  exists pg g', expand_grid [[1; 0]; [0; 0]] true = Some pg /\
     (forall x y, (x < 4)%nat -> (y < 4)%nat ->
        cell_at pg x y = cell_at [[1; 0]; [0; 0]] ((x + 2 - 1) mod 2)%nat ((y + 2 - 1) mod 2)%nat) /\
     update_grid [[1; 0]; [0; 0]] true = Some g' /\ rect 2 2 g' /\
     (forall i j, (i < 2)%nat -> (j < 2)%nat ->
        cell_at g' i j =
        to_bool_cell (update_cell (cell_at [[1; 0]; [0; 0]] i j)
                        (neighbors_sum (torus [[1; 0]; [0; 0]] 2 2) (Z.of_nat i) (Z.of_nat j)))).
Proof.
  apply (proj1 periodic_toroidal 2%nat 2%nat [[1; 0]; [0; 0]]); [|lia|lia].
  split; [reflexivity|]. repeat constructor.
Defined.

(** C6: under the Absolute policy the expanded grid is the grid framed by 0
    cells, so every cell's neighbour count is the sum over its eight
    neighbours with off-grid positions read as dead. *)
Theorem absolute_dead_outside h w g :
  rect h w g -> (0 < h)%nat ->
  expand_grid g false = Some (pad_absolute h w g) /\
  (forall x y, (x < h + 2)%nat -> (y < w + 2)%nat ->
     cell_at (pad_absolute h w g) x y =
     if (x =? 0)%nat || (x =? h + 1)%nat || (y =? 0)%nat || (y =? w + 1)%nat
     then 0 else cell_at g (x - 1) (y - 1)) /\
  exists g', update_grid g false = Some g' /\ rect h w g' /\
    forall i j, (i < h)%nat -> (j < w)%nat ->
      cell_at g' i j =
      to_bool_cell (update_cell (cell_at g i j)
                                (neighbors_sum (dead_outside g h w) (Z.of_nat i) (Z.of_nat j))).
Proof.
  intros Hg Hh. destruct (shape_rect h w g Hg) as [Hs0 Hs1].
  assert (He : expand_grid g false = Some (pad_absolute h w g))
    by (unfold expand_grid; rewrite Hs0, Hs1 by lia; reflexivity).
  split; [exact He|]. split; [intros; apply cell_pad_absolute; assumption|].
  destruct (update_grid_cells h w g false Hg Hh (or_introl eq_refl))
    as (pg & g' & Hpg & Hr & Hu & Hg' & Hc).
  rewrite He in Hpg. injection Hpg as <-.
  exists g'. split; [exact Hu|]. split; [exact Hg'|]. intros i j Hi Hj. rewrite Hc by assumption.
  destruct (window_as_neighbors h w (pad_absolute h w g) (dead_outside g h w) i j) as [E1 E2]; auto.
  { intros x y Hx Hy. apply pad_absolute_dead_outside; auto. }
  rewrite E2, E1, dead_outside_center by assumption. reflexivity.
Qed.

Lemma absolute_dead_outside_witness :
  expand_grid [[1]] false = Some (pad_absolute 1 1 [[1]]) /\
  (forall x y, (x < 3)%nat -> (y < 3)%nat ->
     cell_at (pad_absolute 1 1 [[1]]) x y =
     if (x =? 0)%nat || (x =? 2)%nat || (y =? 0)%nat || (y =? 2)%nat
     then 0 else cell_at [[1]] (x - 1) (y - 1)) /\
  exists g', update_grid [[1]] false = Some g' /\ rect 1 1 g' /\
    forall i j, (i < 1)%nat -> (j < 1)%nat ->
      cell_at g' i j =
      to_bool_cell (update_cell (cell_at [[1]] i j)
                                (neighbors_sum (dead_outside [[1]] 1 1) (Z.of_nat i) (Z.of_nat j))).
Proof.
  apply (absolute_dead_outside 1%nat 1%nat [[1]]); [|lia].
  split; [reflexivity|]. repeat constructor.
Defined.

(** ** Shape and batch contract *)

(** C7: [update_grid] returns a grid of the input's shape, for every grid
    under Absolute and for every grid of positive dimensions under Periodic. *)
Theorem update_grid_shape h w g p :
  rect h w g -> (p = false \/ (0 < h /\ 0 < w)%nat) ->
  exists g', update_grid g p = Some g' /\ rect h w g'.
Proof.
  intros Hg Hp. destruct (Nat.eq_dec h 0) as [->|Hh].
  - destruct Hg as [Hl _]. destruct g; [|discriminate].
    destruct Hp as [->|[Hh _]]; [|lia].
    exists []. split; [reflexivity|]. split; [reflexivity|constructor].
  - assert (Hp' : p = false \/ (0 < w)%nat) by (destruct Hp as [|[]]; auto).
    destruct (update_grid_cells h w g p Hg ltac:(lia) Hp')
      as (pg & g' & _ & _ & Hu & Hg' & _).
    exists g'. auto.
Qed.

Lemma update_grid_shape_witness :
  exists g', update_grid [[0; 1; 0]; [1; 1; 1]] true = Some g' /\ rect 2 3 g'.
Proof.
  apply (update_grid_shape 2%nat 3%nat [[0; 1; 0]; [1; 1; 1]] true).
  - split; [reflexivity|]. repeat constructor.
  - right. lia.
Defined.

(** C4: for a binary seed of positive dimensions and N >= 0, [run_game]
    returns exactly N grids: index 0 is the seed, each later one is the update
    of its predecessor, and N = 0 gives the empty collection. *)
Theorem run_game_batch h w g p N :
  rect h w g -> (0 < h)%nat -> (0 < w)%nat -> binary_grid g -> 0 <= N ->
  exists gs, run_game g N p = Ok gs /\ length gs = Z.to_nat N /\
    (N = 0 -> gs = []) /\
    (0 < N -> nth 0 gs [] = g) /\
    (forall i, (i + 1 < length gs)%nat ->
       update_grid (nth i gs []) p = Some (nth (i + 1) gs [])).
Proof.
  intros Hg Hh Hw Hb HN. apply is_binary_iff in Hb. unfold run_game.
  destruct (Z.ltb_spec N 0) as [|_]; [lia|].
  destruct (Z.to_nat N) as [|n] eqn:En.
  - exists []. repeat split; auto; intros; cbn in *; lia.
  - destruct (pull_suspended h w p Hh (or_intror Hw) n g Hg) as (gs & Hpull & Hlen & Hchain).
    exists (g :: gs). cbn [pull send create_game]. rewrite Hb. cbn [negb]. rewrite Hpull.
    split; [reflexivity|]. split; [cbn; lia|]. split; [intros; lia|].
    split; [reflexivity|]. exact Hchain.
Qed.

Lemma run_game_batch_witness :
  exists gs, run_game [[0; 1]; [1; 1]] 5 true = Ok gs /\ length gs = 5%nat /\
    (5 = 0 -> gs = []) /\
    (0 < 5 -> nth 0 gs [] = [[0; 1]; [1; 1]]) /\
    (forall i, (i + 1 < length gs)%nat ->
       update_grid (nth i gs []) true = Some (nth (i + 1) gs [])).
Proof.
  apply (run_game_batch 2%nat 2%nat [[0; 1]; [1; 1]] true 5); try lia.
  - split; [reflexivity|]. repeat constructor.
  - intros r x Hr Hx. cbn in Hr.
    destruct Hr as [<-|[<-|[]]]; cbn in Hx; destruct Hx as [<-|[<-|[]]]; auto.
Defined.

(** C5: a negative generation count makes [np.zeros] raise [ValueError]:
    [run_game] never returns a result for it. *)
Theorem run_game_negative g N p :
  N < 0 ->
  run_game g N p = Err (ValueError "negative dimensions are not allowed") /\
  forall gs, run_game g N p <> Ok gs.
Proof.
  intros HN. unfold run_game. destruct (Z.ltb_spec N 0) as [_|]; [|lia].
  split; [reflexivity|]. discriminate.
Qed.

Lemma run_game_negative_witness :
  run_game [[1]] (-1) true = Err (ValueError "negative dimensions are not allowed") /\
  forall gs, run_game [[1]] (-1) true <> Ok gs.
Proof. apply run_game_negative. lia. Defined.

(** ** Still life, binary outputs and the 1x1 torus *)

(** C8: on a grid of at least 3x3 cells that is dead except a 2x2 block,
    [update_grid] returns the grid unchanged under both policies. *)
Theorem block_still_life h w r c :
  (3 <= h)%nat -> (3 <= w)%nat -> (r + 1 < h)%nat -> (c + 1 < w)%nat ->
  update_grid (block_grid h w r c) false = Some (block_grid h w r c) /\
  update_grid (block_grid h w r c) true = Some (block_grid h w r c).
Proof.
  intros Hh Hw Hr Hc. pose proof (rect_block_grid h w r c) as Hg.
  split.
  - destruct (update_grid_cells h w _ false Hg ltac:(lia) (or_introl eq_refl))
      as (pg & g' & Hpg & Hrp & Hu & Hg' & Hcell).
    rewrite Hu. f_equal. apply (rect_ext h w); auto. intros i j Hi Hj.
    unfold expand_grid in Hpg. destruct (shape_rect h w _ Hg) as [Hs0 Hs1].
    rewrite Hs0, Hs1 in Hpg by lia. injection Hpg as <-.
    rewrite Hcell by assumption.
    set (R := fun x => if (x =? 0)%nat || (x =? h + 1)%nat then 0 else block_ind r (x - 1)).
    set (C := fun y => if (y =? 0)%nat || (y =? w + 1)%nat then 0 else block_ind c (y - 1)).
    rewrite (separable_step h w _ R C); auto.
    + unfold R, C. cbn beta.
      replace (i + 1 =? 0)%nat with false by (symmetry; apply Nat.eqb_neq; lia).
      replace (i + 1 =? h + 1)%nat with false by (symmetry; apply Nat.eqb_neq; lia).
      replace (j + 1 =? 0)%nat with false by (symmetry; apply Nat.eqb_neq; lia).
      replace (j + 1 =? w + 1)%nat with false by (symmetry; apply Nat.eqb_neq; lia).
      cbn [orb]. rewrite !Nat.add_sub, cell_block_grid by assumption. reflexivity.
    + intros x y Hx Hy. rewrite cell_pad_absolute by assumption. unfold R, C.
      destruct (Nat.eqb_spec x 0), (Nat.eqb_spec x (h + 1)),
               (Nat.eqb_spec y 0), (Nat.eqb_spec y (w + 1)); cbn [orb]; try ring.
      apply cell_block_grid; lia.
    + intros x. unfold R. destruct (_ || _); [auto|apply block_ind_01].
    + intros y. unfold C. destruct (_ || _); [auto|apply block_ind_01].
    + intros i' Hi'. apply (block_ind_absolute_sums h r i'); lia.
    + intros j' Hj'. apply (block_ind_absolute_sums w c j'); lia.
    + intros i' Hi'. apply (block_ind_absolute_sums h r i'); lia.
    + intros j' Hj'. apply (block_ind_absolute_sums w c j'); lia.
  - assert (Hw0 : (0 < w)%nat) by lia.
    destruct (update_grid_cells h w _ true Hg ltac:(lia) (or_intror Hw0))
      as (pg & g' & Hpg & Hrp & Hu & Hg' & Hcell).
    rewrite Hu. f_equal. apply (rect_ext h w); auto. intros i j Hi Hj.
    unfold expand_grid in Hpg. rewrite Hcell by assumption.
    set (R := fun x => block_ind r ((x + h - 1) mod h)).
    set (C := fun y => block_ind c ((y + w - 1) mod w)).
    rewrite (separable_step h w _ R C); auto.
    + unfold R, C. rewrite !wrap_index by lia.
      replace (i + 1 =? 0)%nat with false by (symmetry; apply Nat.eqb_neq; lia).
      replace (i + 1 =? h + 1)%nat with false by (symmetry; apply Nat.eqb_neq; lia).
      replace (j + 1 =? 0)%nat with false by (symmetry; apply Nat.eqb_neq; lia).
      replace (j + 1 =? w + 1)%nat with false by (symmetry; apply Nat.eqb_neq; lia).
      rewrite !Nat.add_sub, cell_block_grid by assumption. reflexivity.
    + intros x y Hx Hy. rewrite (cell_pad_periodic h w (block_grid h w r c) pg) by (auto; lia).
      apply cell_block_grid; apply Nat.mod_upper_bound; lia.
    + intros x. apply block_ind_01.
    + intros y. apply block_ind_01.
    + intros i' Hi'. apply (block_ind_periodic_sums h r i'); lia.
    + intros j' Hj'. apply (block_ind_periodic_sums w c j'); lia.
    + intros i' Hi'. apply (block_ind_periodic_sums h r i'); lia.
    + intros j' Hj'. apply (block_ind_periodic_sums w c j'); lia.
Qed.

Lemma block_still_life_witness :
  update_grid (block_grid 6 7 2 5) false = Some (block_grid 6 7 2 5) /\
  update_grid (block_grid 6 7 2 5) true = Some (block_grid 6 7 2 5).
Proof. apply block_still_life; lia. Defined.

(** C9: from a binary seed, every grid the generator yields and every grid of
    a [run_game] result has all its cells in {0,1}. *)
Theorem generations_binary g p :
  binary_grid g ->
  (forall n gs, pull n (create_game g p) = Ok gs -> Forall binary_grid gs) /\
  (forall N gs, run_game g N p = Ok gs -> Forall binary_grid gs).
Proof.
  intros Hb. apply is_binary_iff in Hb. split.
  - intros n gs. apply pull_create_binary; exact Hb.
  - intros N gs. unfold run_game. destruct (N <? 0); [discriminate|].
    apply pull_create_binary; exact Hb.
Qed.

Lemma generations_binary_witness :
  (forall n gs, pull n (create_game [[1]] true) = Ok gs -> Forall binary_grid gs) /\
  (forall N gs, run_game [[1]] N true = Ok gs -> Forall binary_grid gs).
Proof.
  apply generations_binary. intros r x Hr Hx. cbn in Hr.
  destruct Hr as [<-|[]]. cbn in Hx. destruct Hx as [<-|[]]. auto.
Defined.

(** C10: a 1x1 grid under Periodic expands to nine copies of its cell, so
    the neighbour count is 8 times the cell's value, and a live 1x1 grid
    becomes dead. *)
Theorem unit_torus v :
  expand_grid [[v]] true = Some [[v; v; v]; [v; v; v]; [v; v; v]] /\
  np_sum (sub_grid [[v; v; v]; [v; v; v]; [v; v; v]] 0 0)
    - cell_at (sub_grid [[v; v; v]; [v; v; v]; [v; v; v]] 0 0) 1 1 = 8 * v /\
  update_grid [[v]] true = Some [[to_bool_cell (update_cell v (8 * v))]] /\
  update_grid [[1]] true = Some [[0]].
Proof.
  split; [reflexivity|]. split; [cbn -[Z.mul]; ring|]. split; [|reflexivity].
  cbn -[Z.mul update_cell to_bool_cell]. unfold new_cell, wrap_row.
  cbn -[Z.mul update_cell to_bool_cell].
  replace (v + (v + (v + 0)) + (v + (v + (v + 0)) + (v + (v + (v + 0)) + 0)) - v)
    with (8 * v) by ring.
  reflexivity.
Qed.

(** * Further properties of the update and the batch runner *)

(** ** Cell formulas on the logical grid *)

Lemma update_periodic_cells h w g :
  rect h w g -> (0 < h)%nat -> (0 < w)%nat ->
  exists g', update_grid g true = Some g' /\ rect h w g' /\
    forall i j, (i < h)%nat -> (j < w)%nat ->
      cell_at g' i j =
      to_bool_cell (update_cell (cell_at g i j)
                                (neighbors_sum (torus g h w) (Z.of_nat i) (Z.of_nat j))).
Proof.
  intros Hg Hh Hw.
  destruct (update_grid_cells h w g true Hg Hh (or_intror Hw))
    as (pg & g' & Hpg & Hr & Hu & Hg' & Hc).
  exists g'. split; [exact Hu|]. split; [exact Hg'|]. intros i j Hi Hj.
  rewrite Hc by assumption.
  destruct (window_as_neighbors h w pg (torus g h w) i j) as [E1 E2]; auto.
  { intros x y Hx Hy. apply pad_periodic_torus; auto. }
  rewrite E2, E1, torus_center by assumption. reflexivity.
Qed.

Lemma update_absolute_cells h w g :
  rect h w g -> (0 < h)%nat ->
  exists g', update_grid g false = Some g' /\ rect h w g' /\
    forall i j, (i < h)%nat -> (j < w)%nat ->
      cell_at g' i j =
      to_bool_cell (update_cell (cell_at g i j)
                                (neighbors_sum (dead_outside g h w) (Z.of_nat i) (Z.of_nat j))).
Proof.
  intros Hg Hh. destruct (shape_rect h w g Hg) as [Hs0 Hs1].
  destruct (update_grid_cells h w g false Hg Hh (or_introl eq_refl))
    as (pg & g' & Hpg & Hr & Hu & Hg' & Hc).
  unfold expand_grid in Hpg. rewrite Hs0, Hs1 in Hpg by lia. injection Hpg as <-.
  exists g'. split; [exact Hu|]. split; [exact Hg'|]. intros i j Hi Hj.
  rewrite Hc by assumption.
  destruct (window_as_neighbors h w (pad_absolute h w g) (dead_outside g h w) i j) as [E1 E2]; auto.
  { intros x y Hx Hy. apply pad_absolute_dead_outside; auto. }
  rewrite E2, E1, dead_outside_center by assumption. reflexivity.
Qed.

(** [x mod n] on the range the neighbourhoods reach, [-1 .. n]. *)
Lemma torus_index (n : nat) (x : Z) :
  (0 < n)%nat -> -1 <= x <= Z.of_nat n ->
  (Z.to_nat (x mod Z.of_nat n) < n)%nat /\
  (x = -1 -> Z.to_nat (x mod Z.of_nat n) = (n - 1)%nat) /\
  (x = Z.of_nat n -> Z.to_nat (x mod Z.of_nat n) = 0%nat) /\
  (0 <= x < Z.of_nat n -> Z.to_nat (x mod Z.of_nat n) = Z.to_nat x).
Proof.
  intros Hn Hx. pose proof (Z.mod_pos_bound x (Z.of_nat n) ltac:(lia)) as Hb.
  split; [lia|]. split; [|split].
  - intros ->. replace (-1) with ((Z.of_nat n - 1) + (-1) * Z.of_nat n) by ring.
    rewrite Z_mod_plus_full, Z.mod_small by lia. lia.
  - intros ->. rewrite Z_mod_same_full. reflexivity.
  - intros Hr. rewrite Z.mod_small by lia. reflexivity.
Qed.

Lemma cell_at_binary h w g i j :
  rect h w g -> binary_grid g -> (i < h)%nat -> (j < w)%nat ->
  cell_at g i j = 0 \/ cell_at g i j = 1.
Proof.
  intros Hg Hb Hi Hj. pose proof Hg as [Hl _]. unfold cell_at. apply (Hb (nth i g [])).
  - apply nth_In. lia.
  - apply nth_In. rewrite (rect_nth_length h w g) by assumption. exact Hj.
Qed.

Lemma cell_zeros h w i j : cell_at (zeros h w) i j = 0.
Proof.
  unfold cell_at, zeros. destruct (Nat.lt_ge_cases i h) as [Hi|Hi].
  - rewrite (nth_indep _ _ (repeat 0 w)) by (rewrite repeat_length; lia).
    rewrite nth_repeat. apply nth_repeat.
  - rewrite (nth_overflow (repeat (repeat 0 w) h)) by (rewrite repeat_length; lia). destruct j; reflexivity.
Qed.

Lemma rect_zeros h w : rect h w (zeros h w).
Proof.
  split; [apply repeat_length|]. apply Forall_forall. intros r Hr.
  apply repeat_spec in Hr. subst. apply repeat_length.
Qed.

Lemma expand_cell_binary h w g p pg x y :
  rect h w g -> binary_grid g -> (0 < h)%nat -> (0 < w)%nat ->
  expand_grid g p = Some pg -> (x < h + 2)%nat -> (y < w + 2)%nat ->
  cell_at pg x y = 0 \/ cell_at pg x y = 1.
Proof.
  intros Hg Hb Hh Hw Hpg Hx Hy. unfold expand_grid in Hpg. destruct p.
  - rewrite (cell_pad_periodic h w g pg) by assumption.
    apply (cell_at_binary h w); auto; apply Nat.mod_upper_bound; lia.
  - destruct (shape_rect h w g Hg) as [Hs0 Hs1]. rewrite Hs0, Hs1 in Hpg by lia.
    injection Hpg as <-. rewrite cell_pad_absolute by assumption.
    destruct (_ || _ || _ || _) eqn:E; [auto|].
    apply orb_false_iff in E as [E E4]. apply orb_false_iff in E as [E E3].
    apply orb_false_iff in E as [E1 E2]. apply Nat.eqb_neq in E1, E2, E3, E4.
    apply (cell_at_binary h w); auto; lia.
Qed.

Lemma torus_dead_outside_border h w g x y :
  (0 < h)%nat -> (0 < w)%nat ->
  (forall i j, (i < h)%nat -> (j < w)%nat ->
     (i = 0 \/ i = h - 1 \/ j = 0 \/ j = w - 1)%nat -> cell_at g i j = 0) ->
  -1 <= x <= Z.of_nat h -> -1 <= y <= Z.of_nat w ->
  torus g h w x y = dead_outside g h w x y.
Proof.
  intros Hh Hw Hd Hx Hy.
  destruct (torus_index h x Hh Hx) as (Ha & Ha1 & Ha2 & Ha3).
  destruct (torus_index w y Hw Hy) as (Hb & Hb1 & Hb2 & Hb3).
  unfold torus.
  destruct (Z.le_gt_cases 0 x), (Z.lt_ge_cases x (Z.of_nat h)),
           (Z.le_gt_cases 0 y), (Z.lt_ge_cases y (Z.of_nat w));
    try (rewrite dead_outside_in by lia; rewrite Ha3, Hb3 by lia; reflexivity);
    rewrite dead_outside_out by lia; apply Hd; auto; lia.
Qed.

(** X1: whatever integers the input holds, [update_grid] returns a grid of
    0s and 1s (it stores into a [np.bool_] array). *)
Theorem update_grid_output_binary g p g' :
  update_grid g p = Some g' -> binary_grid g'.
Proof.
  intros Hu. apply is_binary_iff. exact (update_grid_binary g p g' Hu).
Qed.

Lemma update_grid_output_binary_witness :
  update_grid [[2; -1]; [5; 0]] false = Some [[0; 0]; [0; 0]] /\
  binary_grid [[0; 0]; [0; 0]].
Proof.
  split; [reflexivity|].
  apply (update_grid_output_binary [[2; -1]; [5; 0]] false). reflexivity.
Defined.

(** X2: on a binary grid, the neighbour count the loop computes
    ([np.sum(sub_grid) - cell]) is between 0 and 8 for every cell, under both
    policies. *)
Theorem neighbor_count_bounds h w g p pg i j :
  rect h w g -> binary_grid g -> (0 < h)%nat -> (0 < w)%nat ->
  expand_grid g p = Some pg -> (i < h)%nat -> (j < w)%nat ->
  0 <= np_sum (sub_grid pg i j) - cell_at (sub_grid pg i j) 1 1 <= 8.
Proof.
  intros Hg Hb Hh Hw Hpg Hi Hj.
  destruct (expand_grid_rect h w g p Hg Hh (or_intror Hw)) as [pg' [Hpg' Hr]].
  rewrite Hpg in Hpg'. injection Hpg' as <-.
  rewrite (sub_grid_explicit (h + 2) (w + 2)) by (auto; lia).
  unfold np_sum, sum_row. cbn [cell_at nth map fold_right].
  pose proof (fun a b => expand_cell_binary h w g p pg (i + a) (j + b) Hg Hb Hh Hw Hpg) as B.
  pose proof (B 0%nat 0%nat ltac:(lia) ltac:(lia)). pose proof (B 0%nat 1%nat ltac:(lia) ltac:(lia)).
  pose proof (B 0%nat 2%nat ltac:(lia) ltac:(lia)). pose proof (B 1%nat 0%nat ltac:(lia) ltac:(lia)).
  pose proof (B 1%nat 1%nat ltac:(lia) ltac:(lia)). pose proof (B 1%nat 2%nat ltac:(lia) ltac:(lia)).
  pose proof (B 2%nat 0%nat ltac:(lia) ltac:(lia)). pose proof (B 2%nat 1%nat ltac:(lia) ltac:(lia)).
  pose proof (B 2%nat 2%nat ltac:(lia) ltac:(lia)).
  rewrite !Nat.add_0_r in *. lia.
Qed.

Lemma neighbor_count_bounds_witness :
  0 <= np_sum (sub_grid (pad_absolute 2 2 [[1; 1]; [1; 1]]) 0 0)
       - cell_at (sub_grid (pad_absolute 2 2 [[1; 1]; [1; 1]]) 0 0) 1 1 <= 8.
Proof.
  apply (neighbor_count_bounds 2 2 [[1; 1]; [1; 1]] false); try lia; try reflexivity.
  - split; [reflexivity|]. repeat constructor.
  - intros r x Hr Hx. cbn in Hr.
    destruct Hr as [<-|[<-|[]]]; cbn in Hx; destruct Hx as [<-|[<-|[]]]; auto.
Defined.

(** X3: the all-dead grid of positive dimensions is unchanged by an update,
    under both policies. *)
Theorem zeros_still_life h w p :
  (0 < h)%nat -> (0 < w)%nat -> update_grid (zeros h w) p = Some (zeros h w).
Proof.
  intros Hh Hw. pose proof (rect_zeros h w) as Hg.
  destruct (update_grid_cells h w _ p Hg Hh (or_intror Hw))
    as (pg & g' & Hpg & Hr & Hu & Hg' & Hc).
  rewrite Hu. f_equal. apply (rect_ext h w); auto. intros i j Hi Hj.
  assert (Hz : forall x y, (x < h + 2)%nat -> (y < w + 2)%nat -> cell_at pg x y = 0).
  { intros x y Hx Hy. unfold expand_grid in Hpg. destruct p.
    - rewrite (cell_pad_periodic h w (zeros h w) pg) by assumption. apply cell_zeros.
    - destruct (shape_rect h w _ Hg) as [Hs0 Hs1]. rewrite Hs0, Hs1 in Hpg by lia.
      injection Hpg as <-. rewrite cell_pad_absolute by assumption.
      rewrite cell_zeros. destruct (_ || _ || _ || _); reflexivity. }
  rewrite Hc by assumption. unfold window_sum. rewrite !Hz by lia.
  rewrite cell_zeros. reflexivity.
Qed.

Lemma zeros_still_life_witness :
  update_grid (zeros 4 6) true = Some (zeros 4 6).
Proof. apply zeros_still_life; lia. Defined.

(** X4: when every cell on the grid's border (first and last row and column)
    is dead, the Periodic and the Absolute policy give the same next grid. *)
Theorem policies_agree_dead_border h w g :
  rect h w g -> (0 < h)%nat -> (0 < w)%nat ->
  (forall i j, (i < h)%nat -> (j < w)%nat ->
     (i = 0 \/ i = h - 1 \/ j = 0 \/ j = w - 1)%nat -> cell_at g i j = 0) ->
  update_grid g true = update_grid g false.
Proof.
  intros Hg Hh Hw Hd.
  destruct (update_periodic_cells h w g Hg Hh Hw) as (g1 & Hu1 & Hr1 & Hc1).
  destruct (update_absolute_cells h w g Hg Hh) as (g2 & Hu2 & Hr2 & Hc2).
  rewrite Hu1, Hu2. f_equal. apply (rect_ext h w); auto. intros i j Hi Hj.
  rewrite Hc1, Hc2 by assumption. unfold neighbors_sum.
  rewrite !(torus_dead_outside_border h w g) by (auto; lia). reflexivity.
Qed.

Lemma policies_agree_dead_border_witness :
  update_grid (block_grid 4 4 1 1) true = update_grid (block_grid 4 4 1 1) false.
Proof.
  apply (policies_agree_dead_border 4 4); try lia.
  - apply rect_block_grid.
  - intros i j Hi Hj Hb. rewrite cell_block_grid by assumption. unfold block_ind.
    destruct Hb as [-> | [-> | [-> | ->]]]; cbn; [reflexivity|reflexivity|apply Z.mul_0_r|apply Z.mul_0_r].
Defined.

(** ** Transposition *)

Lemma rect_transpose h w g : rect w h (transpose h w g).
Proof. apply rect_tabulate. Qed.

Lemma cell_transpose h w g i j :
  (i < w)%nat -> (j < h)%nat -> cell_at (transpose h w g) i j = cell_at g j i.
Proof. intros Hi Hj. unfold transpose. apply (cell_tabulate w h (fun i j => cell_at g j i)); auto. Qed.

Lemma torus_transpose h w g x y :
  (0 < h)%nat -> (0 < w)%nat -> torus (transpose h w g) w h x y = torus g h w y x.
Proof.
  intros Hh Hw. unfold torus.
  pose proof (Z.mod_pos_bound x (Z.of_nat w) ltac:(lia)).
  pose proof (Z.mod_pos_bound y (Z.of_nat h) ltac:(lia)).
  apply cell_transpose; lia.
Qed.

Lemma dead_outside_transpose h w g x y :
  dead_outside (transpose h w g) w h x y = dead_outside g h w y x.
Proof.
  destruct (Z.le_gt_cases 0 x), (Z.lt_ge_cases x (Z.of_nat w)),
           (Z.le_gt_cases 0 y), (Z.lt_ge_cases y (Z.of_nat h));
    try (rewrite !dead_outside_out by lia; reflexivity).
  rewrite !dead_outside_in by lia. apply cell_transpose; lia.
Qed.

Lemma neighbors_sum_swap (F G : Z -> Z -> Z) a b :
  (forall x y, F x y = G y x) -> neighbors_sum F a b = neighbors_sum G b a.
Proof. intros HFG. unfold neighbors_sum. rewrite !HFG. ring. Qed.

(** X5: the update commutes with transposition, under both policies: the
    next grid of the transposed grid is the transposed next grid. *)
Theorem update_grid_transpose h w g p :
  rect h w g -> (0 < h)%nat -> (0 < w)%nat ->
  exists g', update_grid g p = Some g' /\
             update_grid (transpose h w g) p = Some (transpose h w g').
Proof.
  intros Hg Hh Hw. pose proof (rect_transpose h w g) as Ht. destruct p.
  - destruct (update_periodic_cells h w g Hg Hh Hw) as (g1 & Hu1 & Hr1 & Hc1).
    destruct (update_periodic_cells w h _ Ht Hw Hh) as (g2 & Hu2 & Hr2 & Hc2).
    exists g1. split; [exact Hu1|]. rewrite Hu2. f_equal.
    apply (rect_ext w h); [exact Hr2|apply rect_transpose|]. intros i j Hi Hj.
    rewrite Hc2, !cell_transpose, Hc1 by assumption. do 2 f_equal.
    apply neighbors_sum_swap. intros x y. apply torus_transpose; assumption.
  - destruct (update_absolute_cells h w g Hg Hh) as (g1 & Hu1 & Hr1 & Hc1).
    destruct (update_absolute_cells w h _ Ht Hw) as (g2 & Hu2 & Hr2 & Hc2).
    exists g1. split; [exact Hu1|]. rewrite Hu2. f_equal.
    apply (rect_ext w h); [exact Hr2|apply rect_transpose|]. intros i j Hi Hj.
    rewrite Hc2, !cell_transpose, Hc1 by assumption. do 2 f_equal.
    apply neighbors_sum_swap. intros x y. apply dead_outside_transpose.
Qed.

Lemma update_grid_transpose_witness :
  exists g', update_grid [[0; 1; 1]; [1; 0; 0]] true = Some g' /\
    update_grid (transpose 2 3 [[0; 1; 1]; [1; 0; 0]]) true = Some (transpose 2 3 g').
Proof.
  apply (update_grid_transpose 2%nat 3%nat); try lia.
  split; [reflexivity|]. repeat constructor.
Defined.

(** ** Product grids under the Absolute policy *)

Ltac prune_indices :=
  repeat match goal with
  | |- context [(?a =? ?b)%nat] => destruct (Nat.eqb_spec a b); try (exfalso; lia)
  | |- context [(?a <=? ?b)%nat] => destruct (Nat.leb_spec a b); try (exfalso; lia)
  end; cbn; try reflexivity; try lia.

Lemma absolute_product_update h w g (Rg Cg : nat -> Z) :
  rect h w g -> (0 < h)%nat ->
  (forall i j, (i < h)%nat -> (j < w)%nat -> cell_at g i j = Rg i * Cg j) ->
  let R x := if (x =? 0)%nat || (x =? h + 1)%nat then 0 else Rg (x - 1)%nat in
  let C y := if (y =? 0)%nat || (y =? w + 1)%nat then 0 else Cg (y - 1)%nat in
  exists g', update_grid g false = Some g' /\ rect h w g' /\
    forall i j, (i < h)%nat -> (j < w)%nat ->
      cell_at g' i j =
      to_bool_cell (update_cell (Rg i * Cg j)
        ((R i + R (i + 1)%nat + R (i + 2)%nat) * (C j + C (j + 1)%nat + C (j + 2)%nat)
         - Rg i * Cg j)).
Proof.
  intros Hg Hh Hc R C. destruct (shape_rect h w g Hg) as [Hs0 Hs1].
  destruct (update_grid_cells h w g false Hg Hh (or_introl eq_refl))
    as (pg & g' & Hpg & Hr & Hu & Hg' & Hcell).
  unfold expand_grid in Hpg. rewrite Hs0, Hs1 in Hpg by lia. injection Hpg as <-.
  exists g'. split; [exact Hu|]. split; [exact Hg'|]. intros i j Hi Hj.
  assert (Hp : forall x y, (x < h + 2)%nat -> (y < w + 2)%nat ->
            cell_at (pad_absolute h w g) x y = R x * C y).
  { intros x y Hx Hy. rewrite cell_pad_absolute by assumption. unfold R, C.
    destruct (Nat.eqb_spec x 0), (Nat.eqb_spec x (h + 1)),
             (Nat.eqb_spec y 0), (Nat.eqb_spec y (w + 1)); cbn [orb]; try ring.
    apply Hc; lia. }
  rewrite Hcell by assumption. unfold window_sum. rewrite !Hp by lia.
  assert (E1 : R (i + 1)%nat = Rg i).
  { unfold R. replace (i + 1 =? 0)%nat with false by (symmetry; apply Nat.eqb_neq; lia).
    replace (i + 1 =? h + 1)%nat with false by (symmetry; apply Nat.eqb_neq; lia).
    cbn [orb]. f_equal. lia. }
  assert (E2 : C (j + 1)%nat = Cg j).
  { unfold C. replace (j + 1 =? 0)%nat with false by (symmetry; apply Nat.eqb_neq; lia).
    replace (j + 1 =? w + 1)%nat with false by (symmetry; apply Nat.eqb_neq; lia).
    cbn [orb]. f_equal. lia. }
  rewrite !Nat.add_0_r. rewrite E1, E2. do 2 f_equal. rewrite <- E1, <- E2. ring.
Qed.

Lemma single_sums n r k :
  (r < n)%nat -> (k < n)%nat ->
  let S x := if (x =? 0)%nat || (x =? n + 1)%nat then 0 else ind1 r (x - 1)%nat in
  S k + S (k + 1)%nat + S (k + 2)%nat = ind3 r k.
Proof. intros Hr Hk S. unfold S, ind1, ind3. prune_indices. Qed.

Lemma triple_sums n r k :
  (1 <= r)%nat -> (r + 1 < n)%nat -> (k < n)%nat ->
  let T x := if (x =? 0)%nat || (x =? n + 1)%nat then 0 else ind3 r (x - 1)%nat in
  T k + T (k + 1)%nat + T (k + 2)%nat = tri r k.
Proof. intros Hr1 Hr Hk T. unfold T, ind3, tri. prune_indices. Qed.

Lemma cell_hblinker h w r c i j :
  (i < h)%nat -> (j < w)%nat -> cell_at (hblinker h w r c) i j = ind1 r i * ind3 c j.
Proof.
  intros Hi Hj. unfold hblinker. rewrite (cell_tabulate h w (fun i j =>
    if (i =? r)%nat && (c <=? j + 1)%nat && (j <=? c + 1)%nat then 1 else 0)) by assumption.
  unfold ind1, ind3. destruct (i =? r)%nat, (c <=? j + 1)%nat, (j <=? c + 1)%nat; reflexivity.
Qed.

Lemma cell_vblinker h w r c i j :
  (i < h)%nat -> (j < w)%nat -> cell_at (vblinker h w r c) i j = ind3 r i * ind1 c j.
Proof.
  intros Hi Hj. unfold vblinker. rewrite (cell_tabulate h w (fun i j =>
    if (r <=? i + 1)%nat && (i <=? r + 1)%nat && (j =? c)%nat then 1 else 0)) by assumption.
  unfold ind1, ind3. destruct (r <=? i + 1)%nat, (i <=? r + 1)%nat, (j =? c)%nat; reflexivity.
Qed.

Lemma rect_hblinker h w r c : rect h w (hblinker h w r c).
Proof. apply rect_tabulate. Qed.

Lemma rect_vblinker h w r c : rect h w (vblinker h w r c).
Proof. apply rect_tabulate. Qed.

(** X6: under the Absolute policy a blinker whose three cells and whose
    turned position both lie on the grid oscillates with period 2: the
    horizontal one becomes the vertical one and back. *)
Theorem blinker_period2 h w r c :
  (1 <= r)%nat -> (r + 1 < h)%nat -> (1 <= c)%nat -> (c + 1 < w)%nat ->
  update_grid (hblinker h w r c) false = Some (vblinker h w r c) /\
  update_grid (vblinker h w r c) false = Some (hblinker h w r c).
Proof.
  intros Hr1 Hr Hc1 Hc. split.
  - pose proof (absolute_product_update h w (hblinker h w r c) (ind1 r) (ind3 c)
                  (rect_hblinker h w r c) ltac:(lia) (cell_hblinker h w r c)) as H.
    cbv beta zeta in H. destruct H as (g' & Hu & Hg' & Hcell).
    rewrite Hu. f_equal. apply (rect_ext h w); [exact Hg'|apply rect_vblinker|].
    intros i j Hi Hj. rewrite Hcell, cell_vblinker by assumption.
    pose proof (single_sums h r i ltac:(lia) Hi) as E1.
    pose proof (triple_sums w c j Hc1 Hc Hj) as E2.
    cbv beta zeta in E1, E2. rewrite E1, E2.
    unfold ind1, ind3, tri. prune_indices.
  - pose proof (absolute_product_update h w (vblinker h w r c) (ind3 r) (ind1 c)
                  (rect_vblinker h w r c) ltac:(lia) (cell_vblinker h w r c)) as H.
    cbv beta zeta in H. destruct H as (g' & Hu & Hg' & Hcell).
    rewrite Hu. f_equal. apply (rect_ext h w); [exact Hg'|apply rect_hblinker|].
    intros i j Hi Hj. rewrite Hcell, cell_hblinker by assumption.
    pose proof (triple_sums h r i Hr1 Hr Hi) as E1.
    pose proof (single_sums w c j ltac:(lia) Hj) as E2.
    cbv beta zeta in E1, E2. rewrite E1, E2.
    unfold ind1, ind3, tri. prune_indices.
Qed.

Lemma blinker_period2_witness :
  update_grid (hblinker 5 6 2 2) false = Some (vblinker 5 6 2 2) /\
  update_grid (vblinker 5 6 2 2) false = Some (hblinker 5 6 2 2).
Proof. apply blinker_period2; lia. Defined.

(** ** The generator and the batch runner *)

Lemma pull_prefix n m st gs :
  (m <= n)%nat -> pull n st = Ok gs -> pull m st = Ok (firstn m gs).
Proof.
  revert m st gs. induction n as [|n IH]; intros m st gs Hm Hp.
  - replace m with 0%nat by lia. reflexivity.
  - destruct m as [|m]; [reflexivity|]. cbn in Hp |- *.
    destruct (send st) as [[x st']|e]; [|discriminate].
    destruct (pull n st') as [xs|e] eqn:Hn; [|discriminate].
    injection Hp as <-. rewrite (IH m st' xs) by (auto; lia). reflexivity.
Qed.

Lemma pull_error n m st e :
  (n <= m)%nat -> pull n st = Err e -> pull m st = Err e.
Proof.
  revert m st. induction n as [|n IH]; intros m st Hm Hp; [discriminate|].
  destruct m as [|m]; [lia|]. cbn in Hp |- *.
  destruct (send st) as [[x st']|e']; [|exact Hp].
  destruct (pull n st') as [xs|e'] eqn:Hn; [discriminate|].
  injection Hp as <-. rewrite (IH m st') by (auto; lia). reflexivity.
Qed.

Lemma degenerate_is_binary h w g :
  rect h w g -> (h = 0 \/ w = 0)%nat -> is_binary g = true.
Proof.
  intros [Hl Hf] Hz. destruct g as [|r g']; [reflexivity|].
  destruct Hz as [Hz|Hz]; [cbn in Hl; lia|].
  unfold is_binary. apply forallb_forall. intros r' Hr'.
  rewrite Forall_forall in Hf. specialize (Hf r' Hr'). destruct r'; [reflexivity|].
  cbn in Hf; lia.
Qed.

Lemma pull_fixed n g p :
  update_grid g p = Some g -> pull n (Game_Suspended g p) = Ok (repeat g n).
Proof.
  intros Hu. induction n as [|n IH]; [reflexivity|].
  cbn [pull send]. rewrite Hu, IH. reflexivity.
Qed.

Lemma run_game_from_fixed g p N :
  is_binary g = true -> update_grid g p = Some g -> 0 <= N ->
  run_game g N p = Ok (repeat g (Z.to_nat N)).
Proof.
  intros Hb Hu HN. unfold run_game. destruct (Z.ltb_spec N 0); [lia|].
  destruct (Z.to_nat N) as [|n]; [reflexivity|].
  cbn [pull create_game send]. rewrite Hb. cbn [negb]. rewrite pull_fixed by exact Hu.
  reflexivity.
Qed.

(** X7: under the Periodic policy a grid with no rows or no columns makes the
    update raise [IndexError] ([grid[:, -1]] or [grid[-1]]): [run_game]
    returns the seed for one generation and fails from two on. *)
Theorem periodic_empty_index_error h w g :
  rect h w g -> (h = 0 \/ w = 0)%nat ->
  update_grid g true = None /\
  run_game g 1 true = Ok [g] /\
  (forall N, 2 <= N -> run_game g N true = Err IndexError).
Proof.
  intros [Hl Hf] Hz.
  assert (Hu : update_grid g true = None).
  { unfold update_grid, expand_grid. destruct g as [|r g']; [reflexivity|].
    destruct Hz as [Hz|Hz]; [cbn in Hl; lia|]. inversion Hf; subst.
    destruct r; [reflexivity|cbn in *; lia]. }
  assert (Hb : is_binary g = true)
    by (apply (degenerate_is_binary h w); [split; assumption|exact Hz]).
  split; [exact Hu|]. split.
  - unfold run_game. change (pull 1 (create_game g true) = Ok [g]).
    cbn [pull create_game send]. rewrite Hb. reflexivity.
  - intros N HN. unfold run_game. destruct (Z.ltb_spec N 0); [lia|].
    destruct (Z.to_nat N) as [|[|n]] eqn:En; [lia|lia|].
    cbn [pull create_game send]. rewrite Hb. cbn [negb].
    destruct n; cbn [pull send]; rewrite Hu; reflexivity.
Qed.

Lemma periodic_empty_index_error_witness :
  update_grid [[]; []] true = None /\
  run_game [[]; []] 1 true = Ok [[[]; []]] /\
  (forall N, 2 <= N -> run_game [[]; []] N true = Err IndexError).
Proof.
  apply (periodic_empty_index_error 2 0); [|right; reflexivity].
  split; [reflexivity|]. repeat constructor.
Defined.

(** X8: the batches of [run_game] are consistent: if N generations succeed,
    every smaller non-negative count M gives the first M of them. *)
Theorem run_game_prefix g p N M gs :
  0 <= M <= N -> run_game g N p = Ok gs ->
  run_game g M p = Ok (firstn (Z.to_nat M) gs).
Proof.
  intros HM. unfold run_game.
  destruct (Z.ltb_spec N 0), (Z.ltb_spec M 0); try lia.
  apply pull_prefix. lia.
Qed.

Lemma run_game_prefix_witness :
  run_game (block_grid 4 4 0 0) 2 true =
  Ok (firstn 2 [block_grid 4 4 0 0; block_grid 4 4 0 0; block_grid 4 4 0 0]).
Proof.
  apply (run_game_prefix _ _ 3); [lia|]. vm_compute. reflexivity.
Defined.

(** X9: an error of [run_game] at N generations is raised again, unchanged,
    for every larger count. *)
Theorem run_game_error_persists g p N M e :
  0 <= N <= M -> run_game g N p = Err e -> run_game g M p = Err e.
Proof.
  intros HN. unfold run_game.
  destruct (Z.ltb_spec N 0), (Z.ltb_spec M 0); try lia.
  apply pull_error. lia.
Qed.

Lemma run_game_error_persists_witness :
  run_game [[2]] 5 false = Err (ValueError "Grid contains non-binary values.").
Proof. apply (run_game_error_persists _ _ 1); [lia|reflexivity]. Defined.

(** ** Translation invariance on the torus *)

Lemma torus_congr g h w x x' y y' :
  x mod Z.of_nat h = x' mod Z.of_nat h -> y mod Z.of_nat w = y' mod Z.of_nat w ->
  torus g h w x y = torus g h w x' y'.
Proof. intros Hx Hy. unfold torus. rewrite Hx, Hy. reflexivity. Qed.

Lemma neighbors_sum_ext f f' x y :
  (forall u v, f u v = f' u v) -> neighbors_sum f x y = neighbors_sum f' x y.
Proof. intros H. unfold neighbors_sum. rewrite !H. reflexivity. Qed.

Lemma neighbors_sum_center f x y :
  neighbors_sum f x y = neighbors_sum (fun u v => f (x + u) (y + v)) 0 0.
Proof. unfold neighbors_sum. cbv beta. rewrite !Z.add_0_r. reflexivity. Qed.

Lemma torus_roll h w a b g x y :
  (0 < h)%nat -> (0 < w)%nat ->
  torus (roll h w a b g) h w x y = torus g h w (x - a) (y - b).
Proof.
  intros Hh Hw.
  pose proof (Z.mod_pos_bound x (Z.of_nat h) ltac:(lia)).
  pose proof (Z.mod_pos_bound y (Z.of_nat w) ltac:(lia)).
  unfold torus at 1, roll. rewrite cell_tabulate by lia.
  rewrite !Z2Nat.id by lia.
  apply torus_congr; apply Zminus_mod_idemp_l.
Qed.

(** X10: the Periodic update commutes with [np.roll]: translating the seed
    on the torus translates the next generation the same way. *)
Theorem update_grid_roll h w a b g :
  rect h w g -> (0 < h)%nat -> (0 < w)%nat ->
  exists g', update_grid g true = Some g' /\
    update_grid (roll h w a b g) true = Some (roll h w a b g').
Proof.
  intros Hg Hh Hw.
  destruct (update_periodic_cells h w g Hg Hh Hw) as (g' & Hu & Hr' & Hc).
  exists g'. split; [exact Hu|].
  destruct (update_periodic_cells h w (roll h w a b g) (rect_tabulate _ _ _) Hh Hw)
    as (g2 & Hu2 & Hr2 & Hc2).
  rewrite Hu2. f_equal. apply (rect_ext h w); [exact Hr2|apply rect_tabulate|].
  intros i j Hi Hj. rewrite Hc2 by assumption.
  unfold roll. rewrite !cell_tabulate by assumption. fold (roll h w a b g).
  pose proof (Z.mod_pos_bound (Z.of_nat i - a) (Z.of_nat h) ltac:(lia)).
  pose proof (Z.mod_pos_bound (Z.of_nat j - b) (Z.of_nat w) ltac:(lia)).
  unfold torus at 3. rewrite Hc by lia. fold (torus g h w (Z.of_nat i - a) (Z.of_nat j - b)).
  f_equal. f_equal.
  rewrite (neighbors_sum_ext _ (fun u v => torus g h w (u - a) (v - b)))
    by (intros; apply torus_roll; assumption).
  rewrite (neighbors_sum_center _ (Z.of_nat i)),
          (neighbors_sum_center _ (Z.of_nat (Z.to_nat _))).
  apply neighbors_sum_ext. intros u v. apply torus_congr.
  - rewrite Z2Nat.id by lia. rewrite Z.add_mod_idemp_l by lia. f_equal. ring.
  - rewrite Z2Nat.id by lia. rewrite Z.add_mod_idemp_l by lia. f_equal. ring.
Qed.

Lemma update_grid_roll_witness :
  exists g', update_grid (block_grid 5 6 1 1) true = Some g' /\
    update_grid (roll 5 6 2 (-3) (block_grid 5 6 1 1)) true = Some (roll 5 6 2 (-3) g').
Proof. apply update_grid_roll; [apply rect_block_grid|lia|lia]. Defined.

(** ** Reflection *)

Lemma rect_rev h w g : rect h w g -> rect h w (rev g).
Proof.
  intros [Hl Hf]. split; [rewrite length_rev; exact Hl|].
  apply Forall_forall. intros r Hr. apply in_rev in Hr.
  rewrite Forall_forall in Hf. apply Hf, Hr.
Qed.

Lemma cell_rev h w g i j :
  rect h w g -> (i < h)%nat -> cell_at (rev g) i j = cell_at g (h - 1 - i) j.
Proof.
  intros [Hl _] Hi. unfold cell_at. rewrite rev_nth by lia.
  replace (length g - S i)%nat with (h - 1 - i)%nat by lia. reflexivity.
Qed.

Lemma dead_outside_rev h w g x y :
  rect h w g ->
  dead_outside (rev g) h w x y = dead_outside g h w (Z.of_nat h - 1 - x) y.
Proof.
  intros Hg.
  destruct (Z.le_gt_cases 0 x), (Z.lt_ge_cases x (Z.of_nat h)),
           (Z.le_gt_cases 0 y), (Z.lt_ge_cases y (Z.of_nat w));
    try (rewrite !dead_outside_out by lia; reflexivity).
  rewrite !dead_outside_in by lia. rewrite (cell_rev h w) by (auto; lia).
  f_equal. lia.
Qed.

Lemma torus_rev h w g x y :
  rect h w g -> (0 < h)%nat -> (0 < w)%nat ->
  torus (rev g) h w x y = torus g h w (Z.of_nat h - 1 - x) y.
Proof.
  intros Hg Hh Hw. unfold torus.
  pose proof (Z.mod_pos_bound x (Z.of_nat h) ltac:(lia)).
  rewrite (cell_rev h w) by (auto; lia).
  rewrite <- Zminus_mod_idemp_r, (Z.mod_small (Z.of_nat h - 1 - x mod Z.of_nat h)) by lia.
  f_equal. lia.
Qed.

Lemma neighbors_sum_reflect f c x y :
  neighbors_sum f x y = neighbors_sum (fun u v => f (c - u) v) (c - x) y.
Proof.
  unfold neighbors_sum. cbv beta.
  replace (c - (c - x - 1)) with (x + 1) by ring.
  replace (c - (c - x)) with x by ring.
  replace (c - (c - x + 1)) with (x - 1) by ring.
  lia.
Qed.

(** X11: both policies commute with [np.flipud]: the next generation of the
    upside-down grid is the upside-down next generation. *)
Theorem update_grid_flipud h w g p :
  rect h w g -> (0 < h)%nat -> (0 < w)%nat ->
  exists g', update_grid g p = Some g' /\ update_grid (rev g) p = Some (rev g').
Proof.
  intros Hg Hh Hw. pose proof (rect_rev h w g Hg) as Hr.
  destruct p.
  - destruct (update_periodic_cells h w g Hg Hh Hw) as (g1 & Hu1 & Hr1 & Hc1).
    destruct (update_periodic_cells h w _ Hr Hh Hw) as (g2 & Hu2 & Hr2 & Hc2).
    exists g1. split; [exact Hu1|]. rewrite Hu2. f_equal.
    apply (rect_ext h w); [exact Hr2|apply rect_rev, Hr1|]. intros i j Hi Hj.
    rewrite Hc2, (cell_rev h w g1), (cell_rev h w g), Hc1 by (auto; lia).
    do 2 f_equal.
    rewrite (neighbors_sum_ext _ (fun u v => torus g h w (Z.of_nat h - 1 - u) v))
      by (intros; apply torus_rev; assumption).
    rewrite (neighbors_sum_reflect (torus g h w) (Z.of_nat h - 1)).
    f_equal. lia.
  - destruct (update_absolute_cells h w g Hg Hh) as (g1 & Hu1 & Hr1 & Hc1).
    destruct (update_absolute_cells h w _ Hr Hh) as (g2 & Hu2 & Hr2 & Hc2).
    exists g1. split; [exact Hu1|]. rewrite Hu2. f_equal.
    apply (rect_ext h w); [exact Hr2|apply rect_rev, Hr1|]. intros i j Hi Hj.
    rewrite Hc2, (cell_rev h w g1), (cell_rev h w g), Hc1 by (auto; lia).
    do 2 f_equal.
    rewrite (neighbors_sum_ext _ (fun u v => dead_outside g h w (Z.of_nat h - 1 - u) v))
      by (intros; apply dead_outside_rev; assumption).
    rewrite (neighbors_sum_reflect (dead_outside g h w) (Z.of_nat h - 1)).
    f_equal. lia.
Qed.

Lemma update_grid_flipud_witness :
  exists g', update_grid [[1; 1; 0]; [0; 1; 0]; [0; 0; 1]] false = Some g' /\
    update_grid (rev [[1; 1; 0]; [0; 1; 0]; [0; 0; 1]]) false = Some (rev g').
Proof.
  apply (update_grid_flipud 3%nat 3%nat); try lia.
  split; [reflexivity|]. repeat constructor.
Defined.

(** ** Fixed points *)

(** X12: a binary grid that the update leaves unchanged (a still life under
    the chosen policy) makes [run_game] return N copies of it. *)
Theorem run_game_still_life g p N :
  binary_grid g -> update_grid g p = Some g -> 0 <= N ->
  run_game g N p = Ok (repeat g (Z.to_nat N)).
Proof.
  intros Hb. apply run_game_from_fixed. apply is_binary_iff, Hb.
Qed.

Lemma run_game_still_life_witness :
  run_game (block_grid 4 5 1 2) 3 true =
  Ok [block_grid 4 5 1 2; block_grid 4 5 1 2; block_grid 4 5 1 2].
Proof.
  apply (run_game_still_life _ _ 3); [apply is_binary_iff; reflexivity| |lia].
  vm_compute. reflexivity.
Defined.

(** X13: under the Absolute policy a grid with no rows or no columns is
    returned unchanged (the loops of lines 71-80 run zero times), so
    [run_game] returns N copies of it. *)
Theorem absolute_degenerate_unchanged h w g N :
  rect h w g -> (h = 0 \/ w = 0)%nat -> 0 <= N ->
  update_grid g false = Some g /\ run_game g N false = Ok (repeat g (Z.to_nat N)).
Proof.
  intros Hg Hz HN.
  assert (Hu : update_grid g false = Some g).
  { pose proof Hg as [Hl Hf]. unfold update_grid, expand_grid. f_equal.
    apply (rect_ext h w); [|exact Hg|intros; lia].
    split; [rewrite length_map, length_seq; exact Hl|].
    apply Forall_forall. intros r Hr. apply in_map_iff in Hr as (i & <- & Hi).
    apply in_seq in Hi. rewrite length_map, length_seq.
    destruct g as [|r g']; cbn in Hl, Hi |- *; [lia|].
    inversion Hf; assumption. }
  split; [exact Hu|]. apply run_game_from_fixed; [|exact Hu|exact HN].
  apply (degenerate_is_binary h w); assumption.
Qed.

Lemma absolute_degenerate_unchanged_witness :
  update_grid [[]; []; []] false = Some [[]; []; []] /\
  run_game [[]; []; []] 2 false = Ok [[[]; []; []]; [[]; []; []]].
Proof.
  apply (absolute_degenerate_unchanged 3 0); [|right; reflexivity|lia].
  split; [reflexivity|]. repeat constructor.
Defined.
